(** * Execution-diagram analyser: a shallow embedding

    The repository holds two variants of one script:
    - [Execution_diagram.py], the plain variant, whose call edges are a set
      of (caller file, callee file) pairs;
    - [Execution_diagram_iteration.py], the sequenced variant, which stamps
      every recorded call with the next value of a global counter.

    Both share the syntax-tree walk, the name resolution of call sites and
    the builder of the name-to-file table.  The shared parts come first,
    then one module per variant, then the facts about them. *)

From Stdlib Require Import Ascii String List Arith Lia Sorted.
From stdpp Require Import base gmap strings pretty list.

Import ListNotations.
Local Open Scope list_scope.

(** ** Syntax trees

    Python's [ast] nodes form one class hierarchy on which the script
    dispatches by [isinstance]; the embedding keeps one type of nodes, with
    a constructor for each class the script distinguishes and [Other] for
    every class it treats generically ([Module], [Expr], [If], [Return],
    [Constant], [Subscript], ...).  The child lists are in the order
    [ast.iter_fields] yields them.  Auxiliary nodes that carry no callable
    ([alias], [arguments], [keyword], expression contexts) are flattened:
    [args] of a [FunctionDef] holds the annotation and default-value
    expressions of its parameters, [args] of a [Call] the positional
    arguments followed by the keyword values, [bases] of a [ClassDef] the
    bases followed by the keyword values, and a return annotation is the
    last entry of [decorator_list]. *)

#[warnings="-register-all"]
Inductive node : Type :=
| Name (id : string)
| Attribute (value : node) (attr : string)
| Call (func : node) (args : list node)
| FunctionDef (name : string) (args body decorator_list : list node)
| ClassDef (name : string) (bases body decorator_list : list node)
| Import (names : list string)
| ImportFrom (module : option string) (names : list string)
| Other (fields : list node).

(** [ast.iter_child_nodes] *)
Definition iter_child_nodes (n : node) : list node :=
  match n with
  | Name _ => []
  | Attribute value _ => [value]
  | Call func args => func :: args
  | FunctionDef _ args body decorator_list => args ++ body ++ decorator_list
  | ClassDef _ bases body decorator_list => bases ++ body ++ decorator_list
  | Import _ => []
  | ImportFrom _ _ => []
  | Other fields => fields
  end.

Fixpoint node_size (n : node) : nat :=
  let sizes := fix sizes (l : list node) : nat :=
    match l with
    | [] => 0
    | x :: r => node_size x + sizes r
    end in
  match n with
  | Name _ => 1
  | Attribute value _ => S (node_size value)
  | Call func args => S (node_size func + sizes args)
  | FunctionDef _ args body decorator_list =>
      S (sizes args + (sizes body + sizes decorator_list))
  | ClassDef _ bases body decorator_list =>
      S (sizes bases + (sizes body + sizes decorator_list))
  | Import _ => 1
  | ImportFrom _ _ => 1
  | Other fields => S (sizes fields)
  end.

Definition queue_size (todo : list node) : nat :=
  fold_right (fun x acc => node_size x + acc) 0 todo.

(** [ast.walk]: a breadth-first traversal driven by a queue,
<<
    todo = deque([node])
    while todo:
        node = todo.popleft()
        todo.extend(iter_child_nodes(node))
        yield node
>>
    The loop runs once per node of the tree, so the number of nodes is
    enough fuel. *)
Fixpoint walk_queue (fuel : nat) (todo : list node) : list node :=
  match fuel with
  | O => []
  | S fuel' =>
      match todo with
      | [] => []
      | n :: rest => n :: walk_queue fuel' (rest ++ iter_child_nodes n)
      end
  end.

Definition ast_walk (tree : node) : list node :=
  walk_queue (node_size tree) [tree].

(** [x] occurs in the tree [n], at any depth. *)
Inductive subnode (x : node) : node -> Prop :=
| subnode_here : subnode x x
| subnode_child n c : In c (iter_child_nodes n) -> subnode x c -> subnode x n.

(** ** Exceptions

    Nothing in either script catches a failure of [open] or [ast.parse]:
    it propagates to the caller.  [result] is the outcome of a computation
    that may raise. *)

Inductive exn : Type :=
| SyntaxError (msg : string)
| OSError (msg : string)
| OtherException (class_name msg : string).

Inductive result (A : Type) : Type :=
| Ok (a : A)
| Raise (e : exn).

Arguments Ok {A} a.
Arguments Raise {A} e.

#[global] Instance result_bind : MBind result := fun A B k r =>
  match r with
  | Ok a => k a
  | Raise e => Raise e
  end.

(** ** Name of a call site *)

(** The loop of [get_attribute_name]: while the node is an [Attribute] its
    [attr] goes to the front of [parts]; a [Name] at the base goes to the
    front as well, any other base is left out. *)
Fixpoint attribute_parts (n : node) (parts : list string) : list string :=
  match n with
  | Attribute value attr => attribute_parts value (attr :: parts)
  | Name id => id :: parts
  | _ => parts
  end.

Definition get_attribute_name (n : node) : string :=
  String.concat "." (attribute_parts n []).

(** [get_func_name] takes the [Call] node; [None] is Python's [None]. *)
Definition get_func_name (call : node) : option string :=
  match call with
  | Call (Name id) _ => Some id
  | Call (Attribute value attr) _ => Some (get_attribute_name (Attribute value attr))
  | _ => None
  end.

(** Truth value of a string: only the empty string is false. *)
Definition truthy (s : string) : bool :=
  match s with
  | EmptyString => false
  | String _ _ => true
  end.

Definition find_callee_file (func_to_file : gmap string string) (func_name : string)
  : option string :=
  func_to_file !! func_name.

(** The recognised output functions. *)
Definition output_functions : list string :=
  ["print"; "logging.info"; "logging.debug"; "logging.error"].

Definition is_output (func_name : string) : bool :=
  bool_decide (func_name ∈ output_functions).

(** ** The environment of a run

    [abspath] is [os.path.abspath] in the working directory of the run and
    [source] the outcome of reading and parsing a path: the tree, or the
    exception that [open] or [ast.parse] raises. *)

Section Builder.

Variable abspath : string -> string.
Variable source : string -> result node.

(** Body of the loop over [ast.walk(tree)] in [build_function_to_file_map]. *)
Definition record_method (file class_name : string)
    (func_to_file : gmap string string) (body_item : node) : gmap string string :=
  match body_item with
  | FunctionDef method_name _ _ _ =>
      <[class_name +:+ "." +:+ method_name := file]> func_to_file
  | _ => func_to_file
  end.

Definition record_node (file : string)
    (func_to_file : gmap string string) (n : node) : gmap string string :=
  match n with
  | FunctionDef func_name _ _ _ => <[func_name := file]> func_to_file
  | ClassDef class_name _ body _ =>
      fold_left (record_method file class_name) body
        (<[class_name := file]> func_to_file)
  | _ => func_to_file
  end.

Fixpoint build_loop (py_files : list string) (func_to_file : gmap string string)
  : result (gmap string string) :=
  match py_files with
  | [] => Ok func_to_file
  | file_path :: rest =>
      tree ← source file_path;
      build_loop rest
        (fold_left (record_node (abspath file_path)) (ast_walk tree) func_to_file)
  end.

Definition build_function_to_file_map (py_files : list string)
  : result (gmap string string) :=
  build_loop py_files ∅.

End Builder.

(** ** Dictionaries that keep insertion order

    [visitors] is a Python [dict] whose values are iterated: assigning to
    a key that is present replaces the value in place, a new key goes to
    the end. *)

Fixpoint dict_set {V : Type} (k : string) (v : V) (d : list (string * V))
  : list (string * V) :=
  match d with
  | [] => [(k, v)]
  | (k', v') :: r =>
      if bool_decide (k = k') then (k, v) :: r else (k', v') :: dict_set k v r
  end.

Fixpoint dict_get {V : Type} (k : string) (d : list (string * V)) : option V :=
  match d with
  | [] => None
  | (k', v') :: r => if bool_decide (k = k') then Some v' else dict_get k r
  end.

Definition dict_mem {V : Type} (k : string) (d : list (string * V)) : bool :=
  bool_decide (k ∈ map fst d).

Definition dict_values {V : Type} (d : list (string * V)) : list V := map snd d.

(** ** Module resolution

    [importlib.util.find_spec] belongs to the host: it returns a spec,
    returns [None], raises [ModuleNotFoundError], or raises something else
    (a [ValueError] for a module without spec, whatever the import of a
    parent package raises).  A spec is reduced to its [origin]. *)

Inductive find_spec_outcome : Type :=
| SpecFound (origin : option string)
| SpecNone
| SpecModuleNotFoundError
| SpecRaises (e : exn).

Definition endswith (s suffix : string) : bool :=
  bool_decide (String.length suffix <= String.length s) &&
  bool_decide (substring (String.length s - String.length suffix)
                 (String.length suffix) s = suffix).

Section Resolver.

Variable abspath : string -> string.
Variable find_spec : string -> find_spec_outcome.

(** Only [ModuleNotFoundError] is caught. *)
Definition find_source_file (module_name : string) : result (option string) :=
  match find_spec module_name with
  | SpecFound (Some origin) =>
      if truthy origin && endswith origin ".py"
      then Ok (Some (abspath origin))
      else Ok None
  | SpecFound None => Ok None
  | SpecNone => Ok None
  | SpecModuleNotFoundError => Ok None
  | SpecRaises e => Raise e
  end.

End Resolver.

(** ** The graph handed to the renderer

    [dot.edge(tail, head, label=..., color=...)] appends one edge; the
    graph is not strict, so equal edges are kept.  Node labels are text
    only and are left out. *)

Record edge : Type := Edge {
  edge_tail : string;
  edge_head : string;
  edge_label : string;
  edge_color : string }.

#[global] Instance edge_eq_dec : EqDecision edge.
Proof. solve_decision. Defined.

Record graph : Type := Graph {
  graph_nodes : list string;
  graph_edges : list edge }.

(** ** The plain variant: [Execution_diagram.py] *)

Module Plain.

Record visitor : Type := Visitor {
  filename : string;
  func_to_file : gmap string string;
  imports : gset (string * string);
  function_calls : gset (string * string);
  outputs : gset string;
  classes : gset string;
  functions : gset string;
  current_class : option string;
  current_function : option string }.

Definition add_import (imp : string * string) (v : visitor) : visitor :=
  Visitor (filename v) (func_to_file v) ({[imp]} ∪ imports v) (function_calls v)
    (outputs v) (classes v) (functions v) (current_class v) (current_function v).

Definition add_function_call (c : string * string) (v : visitor) : visitor :=
  Visitor (filename v) (func_to_file v) (imports v) ({[c]} ∪ function_calls v)
    (outputs v) (classes v) (functions v) (current_class v) (current_function v).

Definition add_output (o : string) (v : visitor) : visitor :=
  Visitor (filename v) (func_to_file v) (imports v) (function_calls v)
    ({[o]} ∪ outputs v) (classes v) (functions v) (current_class v)
    (current_function v).

Definition add_class (c : string) (v : visitor) : visitor :=
  Visitor (filename v) (func_to_file v) (imports v) (function_calls v)
    (outputs v) ({[c]} ∪ classes v) (functions v) (current_class v)
    (current_function v).

Definition add_function (f : string) (v : visitor) : visitor :=
  Visitor (filename v) (func_to_file v) (imports v) (function_calls v)
    (outputs v) (classes v) ({[f]} ∪ functions v) (current_class v)
    (current_function v).

Definition set_current_class (c : option string) (v : visitor) : visitor :=
  Visitor (filename v) (func_to_file v) (imports v) (function_calls v)
    (outputs v) (classes v) (functions v) c (current_function v).

(** The statements of each [visit_*] method that come before its call of
    [generic_visit], and those that come after. *)

Definition visit_Import (names : list string) (v : visitor) : visitor :=
  fold_left (fun v module_name => add_import (filename v, module_name) v) names v.

Definition imported_module (module : option string) (alias_name : string) : string :=
  match module with
  | Some m => if truthy m then m +:+ "." +:+ alias_name else alias_name
  | None => alias_name
  end.

Definition visit_ImportFrom (module : option string) (names : list string)
    (v : visitor) : visitor :=
  fold_left
    (fun v alias_name => add_import (filename v, imported_module module alias_name) v)
    names v.

Definition enter_ClassDef (class_name : string) (v : visitor) : visitor :=
  set_current_class (Some class_name) (add_class class_name v).

Definition leave_ClassDef (v : visitor) : visitor :=
  set_current_class None v.

Definition visit_FunctionDef (function_name : string) (v : visitor) : visitor :=
  match current_class v with
  | None => add_function function_name v
  | Some _ => v
  end.

Definition visit_Call (call : node) (v : visitor) : visitor :=
  match get_func_name call with
  | Some func_name =>
      if truthy func_name then
        let v1 :=
          match find_callee_file (func_to_file v) func_name with
          | Some callee_file =>
              if truthy callee_file && bool_decide (callee_file ≠ filename v)
              then add_function_call (filename v, callee_file) v
              else v
          | None => v
          end in
        if is_output func_name then add_output func_name v1 else v1
      else v
  | None => v
  end.

Definition enter (n : node) (v : visitor) : visitor :=
  match n with
  | Import names => visit_Import names v
  | ImportFrom module names => visit_ImportFrom module names v
  | ClassDef class_name _ _ _ => enter_ClassDef class_name v
  | FunctionDef function_name _ _ _ => visit_FunctionDef function_name v
  | Call _ _ => visit_Call n v
  | _ => v
  end.

Definition leave (n : node) (v : visitor) : visitor :=
  match n with
  | ClassDef _ _ _ _ => leave_ClassDef v
  | _ => v
  end.

(** [NodeVisitor.visit]: the method of the node's class if the visitor has
    one, [generic_visit] otherwise; [generic_visit] visits the children in
    field order. *)
Fixpoint visit (n : node) (v : visitor) {struct n} : visitor :=
  let generic_visit := fix generic_visit (l : list node) (v : visitor) : visitor :=
    match l with
    | [] => v
    | x :: r => generic_visit r (visit x v)
    end in
  match n with
  | Name _ => v
  | Attribute value _ => visit value v
  | Call func args => generic_visit args (visit func (visit_Call n v))
  | FunctionDef function_name args body decorator_list =>
      generic_visit decorator_list
        (generic_visit body
           (generic_visit args (visit_FunctionDef function_name v)))
  | ClassDef class_name bases body decorator_list =>
      leave_ClassDef
        (generic_visit decorator_list
           (generic_visit body
              (generic_visit bases (enter_ClassDef class_name v))))
  | Import names => visit_Import names v
  | ImportFrom module names => visit_ImportFrom module names v
  | Other fields => generic_visit fields v
  end.

Definition visit_all (l : list node) (v : visitor) : visitor :=
  fold_left (fun v x => visit x v) l v.

Section Run.

Variable abspath : string -> string.
Variable source : string -> result node.
Variable find_spec : string -> find_spec_outcome.

Definition new_visitor (file_name : string) (table : gmap string string) : visitor :=
  Visitor (abspath file_name) table ∅ ∅ ∅ ∅ ∅ None None.

(** [visitor.visit(tree)] recurses along the tree and the interpreter
    bounds the depth of its recursion: on a tree nested too deeply the
    call raises [RecursionError] and the run stops there.  [visit] has no
    such bound, so [parse_file] stands for the calls that return; the
    statements about the visitors of a run take the run's return as their
    hypothesis. *)
Definition parse_file (file_path : string) (table : gmap string string)
  : result visitor :=
  tree ← source file_path;
  Ok (visit tree (new_visitor file_path table)).

Fixpoint parse_loop (py_files : list string) (table : gmap string string)
    (visitors : list (string * visitor)) : result (list (string * visitor)) :=
  match py_files with
  | [] => Ok visitors
  | file_path :: rest =>
      visitor ← parse_file file_path table;
      parse_loop rest table (dict_set (abspath file_path) visitor visitors)
  end.

(** [analyze_project], from the list [py_files] that [os.walk] collects. *)
Definition analyze_project (py_files : list string)
  : result (list (string * visitor)) :=
  table ← build_function_to_file_map abspath source py_files;
  parse_loop py_files table [].

(** One iteration of the loop over [visitor.imports]. *)
Definition import_edge (visitors : list (string * visitor))
    (imp : string * string) : result (list edge) :=
  imported_file ← find_source_file abspath find_spec imp.2;
  match imported_file with
  | Some imported_file =>
      if truthy imported_file && dict_mem imported_file visitors
      then Ok [Edge imp.1 imported_file "imports" "blue"]
      else Ok []
  | None => Ok []
  end.

Fixpoint import_edges_of (visitors : list (string * visitor))
    (imps : list (string * string)) : result (list edge) :=
  match imps with
  | [] => Ok []
  | imp :: rest =>
      es ← import_edge visitors imp;
      es' ← import_edges_of visitors rest;
      Ok (es ++ es')
  end.

(** [visitor.imports] is a Python [set]: the order in which the loop
    takes its elements depends on their hashes, which for strings change
    from one process to the next.  [elements] is one such order; what is
    stated of this loop and of the loop over [visitor.function_calls]
    below is stated by membership, not by position. *)
Fixpoint import_edges_loop (visitors : list (string * visitor))
    (todo : list visitor) : result (list edge) :=
  match todo with
  | [] => Ok []
  | visitor :: rest =>
      es ← import_edges_of visitors (elements (imports visitor));
      es' ← import_edges_loop visitors rest;
      Ok (es ++ es')
  end.

Definition import_edges (visitors : list (string * visitor)) : result (list edge) :=
  import_edges_loop visitors (dict_values visitors).

(** One iteration of the loop over [visitor.function_calls]. *)
Definition call_edge (visitors : list (string * visitor))
    (c : string * string) : list edge :=
  if truthy c.2 && dict_mem c.2 visitors
  then [Edge c.1 c.2 "calls" "black"]
  else [].

Definition call_edges (visitors : list (string * visitor)) : list edge :=
  flat_map
    (fun visitor => flat_map (call_edge visitors) (elements (function_calls visitor)))
    (dict_values visitors).

(** [create_execution_diagram]: nodes, then import edges, then call edges. *)
Definition create_execution_diagram (visitors : list (string * visitor))
  : result graph :=
  ies ← import_edges visitors;
  Ok (Graph (map fst visitors) (ies ++ call_edges visitors)).

Definition main (py_files : list string) : result graph :=
  visitors ← analyze_project py_files;
  create_execution_diagram visitors.

End Run.

End Plain.

(** ** The sequenced variant: [Execution_diagram_iteration.py]

    The module-level [call_sequence_counter] is threaded through the
    traversal: a state is the counter paired with the visitor. *)

Module Sequenced.

Record visitor : Type := Visitor {
  filename : string;
  func_to_file : gmap string string;
  imports : gset (string * string);
  function_calls : gset (string * string);
  outputs : gset string;
  classes : gset string;
  functions : gset string;
  current_class : option string;
  current_function : option string;
  calls_with_sequence : list (nat * string * string) }.

Definition add_import (imp : string * string) (v : visitor) : visitor :=
  Visitor (filename v) (func_to_file v) ({[imp]} ∪ imports v) (function_calls v)
    (outputs v) (classes v) (functions v) (current_class v) (current_function v)
    (calls_with_sequence v).

Definition add_output (o : string) (v : visitor) : visitor :=
  Visitor (filename v) (func_to_file v) (imports v) (function_calls v)
    ({[o]} ∪ outputs v) (classes v) (functions v) (current_class v)
    (current_function v) (calls_with_sequence v).

Definition add_class (c : string) (v : visitor) : visitor :=
  Visitor (filename v) (func_to_file v) (imports v) (function_calls v)
    (outputs v) ({[c]} ∪ classes v) (functions v) (current_class v)
    (current_function v) (calls_with_sequence v).

Definition add_function (f : string) (v : visitor) : visitor :=
  Visitor (filename v) (func_to_file v) (imports v) (function_calls v)
    (outputs v) (classes v) ({[f]} ∪ functions v) (current_class v)
    (current_function v) (calls_with_sequence v).

Definition set_current_class (c : option string) (v : visitor) : visitor :=
  Visitor (filename v) (func_to_file v) (imports v) (function_calls v)
    (outputs v) (classes v) (functions v) c (current_function v)
    (calls_with_sequence v).

Definition append_call (c : nat * string * string) (v : visitor) : visitor :=
  Visitor (filename v) (func_to_file v) (imports v) (function_calls v)
    (outputs v) (classes v) (functions v) (current_class v) (current_function v)
    (calls_with_sequence v ++ [c]).

Definition visit_Import (names : list string) (v : visitor) : visitor :=
  fold_left (fun v module_name => add_import (filename v, module_name) v) names v.

Definition imported_module (module : option string) (alias_name : string) : string :=
  match module with
  | Some m => if truthy m then m +:+ "." +:+ alias_name else alias_name
  | None => alias_name
  end.

Definition visit_ImportFrom (module : option string) (names : list string)
    (v : visitor) : visitor :=
  fold_left
    (fun v alias_name => add_import (filename v, imported_module module alias_name) v)
    names v.

Definition enter_ClassDef (class_name : string) (v : visitor) : visitor :=
  set_current_class (Some class_name) (add_class class_name v).

Definition leave_ClassDef (v : visitor) : visitor :=
  set_current_class None v.

Definition visit_FunctionDef (function_name : string) (v : visitor) : visitor :=
  match current_class v with
  | None => add_function function_name v
  | Some _ => v
  end.

(** [st.1] is [call_sequence_counter], [st.2] is [self]. *)
Definition visit_Call (call : node) (st : nat * visitor) : nat * visitor :=
  match get_func_name call with
  | Some func_name =>
      if truthy func_name then
        let caller_file := filename st.2 in
        let st1 :=
          match find_callee_file (func_to_file st.2) func_name with
          | Some callee_file =>
              if truthy callee_file && bool_decide (callee_file ≠ caller_file)
              then (S st.1, append_call (S st.1, caller_file, callee_file) st.2)
              else st
          | None => st
          end in
        if is_output func_name then (st1.1, add_output func_name st1.2) else st1
      else st
  | None => st
  end.

Definition enter (n : node) (st : nat * visitor) : nat * visitor :=
  match n with
  | Import names => (st.1, visit_Import names st.2)
  | ImportFrom module names => (st.1, visit_ImportFrom module names st.2)
  | ClassDef class_name _ _ _ => (st.1, enter_ClassDef class_name st.2)
  | FunctionDef function_name _ _ _ => (st.1, visit_FunctionDef function_name st.2)
  | Call _ _ => visit_Call n st
  | _ => st
  end.

Definition leave (n : node) (st : nat * visitor) : nat * visitor :=
  match n with
  | ClassDef _ _ _ _ => (st.1, leave_ClassDef st.2)
  | _ => st
  end.

Fixpoint visit (n : node) (st : nat * visitor) {struct n} : nat * visitor :=
  let generic_visit :=
    fix generic_visit (l : list node) (st : nat * visitor) : nat * visitor :=
      match l with
      | [] => st
      | x :: r => generic_visit r (visit x st)
      end in
  match n with
  | Name _ => st
  | Attribute value _ => visit value st
  | Call func args => generic_visit args (visit func (visit_Call n st))
  | FunctionDef function_name args body decorator_list =>
      generic_visit decorator_list
        (generic_visit body
           (generic_visit args (st.1, visit_FunctionDef function_name st.2)))
  | ClassDef class_name bases body decorator_list =>
      let st' :=
        generic_visit decorator_list
          (generic_visit body
             (generic_visit bases (st.1, enter_ClassDef class_name st.2))) in
      (st'.1, leave_ClassDef st'.2)
  | Import names => (st.1, visit_Import names st.2)
  | ImportFrom module names => (st.1, visit_ImportFrom module names st.2)
  | Other fields => generic_visit fields st
  end.

Definition visit_all (l : list node) (st : nat * visitor) : nat * visitor :=
  fold_left (fun st x => visit x st) l st.

(** [list.sort(key=lambda x: x[0])]: a stable sort on the sequence number. *)
Fixpoint insert_call (x : nat * string * string) (l : list (nat * string * string))
  : list (nat * string * string) :=
  match l with
  | [] => [x]
  | y :: r => if x.1.1 <=? y.1.1 then x :: y :: r else y :: insert_call x r
  end.

Definition sort_calls (l : list (nat * string * string))
  : list (nat * string * string) :=
  fold_right insert_call [] l.

Section Run.

Variable abspath : string -> string.
Variable source : string -> result node.
Variable find_spec : string -> find_spec_outcome.

Definition new_visitor (file_name : string) (table : gmap string string) : visitor :=
  Visitor (abspath file_name) table ∅ ∅ ∅ ∅ ∅ None None [].

(** As in the plain variant, [parse_file] stands for the calls of
    [visitor.visit(tree)] that return. *)
Definition parse_file (file_path : string) (table : gmap string string)
    (counter : nat) : result (nat * visitor) :=
  tree ← source file_path;
  Ok (visit tree (counter, new_visitor file_path table)).

Fixpoint parse_loop (py_files : list string) (table : gmap string string)
    (counter : nat) (visitors : list (string * visitor))
  : result (nat * list (string * visitor)) :=
  match py_files with
  | [] => Ok (counter, visitors)
  | file_path :: rest =>
      st ← parse_file file_path table counter;
      parse_loop rest table st.1 (dict_set (abspath file_path) st.2 visitors)
  end.

(** [analyze_project] entered with the global counter at [counter]; it
    returns the counter's final value with the visitors. *)
Definition analyze_project (counter : nat) (py_files : list string)
  : result (nat * list (string * visitor)) :=
  table ← build_function_to_file_map abspath source py_files;
  parse_loop py_files table counter [].

Definition all_calls_with_sequence (visitors : list (string * visitor))
  : list (nat * string * string) :=
  flat_map calls_with_sequence (dict_values visitors).

(** The edge of a recorded call [(seq_num, caller_file, callee_file)]. *)
Definition edge_of_call (c : nat * string * string) : edge :=
  Edge c.1.2 c.2 ("call " +:+ pretty c.1.1) "black".

(** One iteration of the loop over the sorted calls. *)
Definition call_edge (visitors : list (string * visitor))
    (c : nat * string * string) : list edge :=
  if truthy c.2 && dict_mem c.2 visitors
  then [edge_of_call c]
  else [].

Definition call_edges (visitors : list (string * visitor)) : list edge :=
  flat_map (call_edge visitors) (sort_calls (all_calls_with_sequence visitors)).

Definition import_edge (visitors : list (string * visitor))
    (imp : string * string) : result (list edge) :=
  imported_file ← find_source_file abspath find_spec imp.2;
  match imported_file with
  | Some imported_file =>
      if truthy imported_file && dict_mem imported_file visitors
      then Ok [Edge imp.1 imported_file "imports" "blue"]
      else Ok []
  | None => Ok []
  end.

Fixpoint import_edges_of (visitors : list (string * visitor))
    (imps : list (string * string)) : result (list edge) :=
  match imps with
  | [] => Ok []
  | imp :: rest =>
      es ← import_edge visitors imp;
      es' ← import_edges_of visitors rest;
      Ok (es ++ es')
  end.

(** [elements] is one order of the set [visitor.imports], as in the
    plain variant. *)
Fixpoint import_edges_loop (visitors : list (string * visitor))
    (todo : list visitor) : result (list edge) :=
  match todo with
  | [] => Ok []
  | visitor :: rest =>
      es ← import_edges_of visitors (elements (imports visitor));
      es' ← import_edges_loop visitors rest;
      Ok (es ++ es')
  end.

Definition import_edges (visitors : list (string * visitor)) : result (list edge) :=
  import_edges_loop visitors (dict_values visitors).

(** [create_execution_diagram]: nodes, then call edges, then import edges. *)
Definition create_execution_diagram (visitors : list (string * visitor))
  : result graph :=
  ies ← import_edges visitors;
  Ok (Graph (map fst visitors) (call_edges visitors ++ ies)).

(** The script's entry point: the counter is [0] when the module is loaded. *)
Definition main (py_files : list string) : result graph :=
  st ← analyze_project 0 py_files;
  create_execution_diagram st.2.

End Run.

End Sequenced.

(** ** Shapes of input used in the statements below *)

(** The chain [base.a1.a2...an] as the parser builds it: the outermost
    [Attribute] carries the last name. *)
Definition attribute_chain (base : string) (attrs : list string) : node :=
  fold_left Attribute attrs (Name base).

(** The names under which [record_node] files a node. *)
Definition method_name_of (class_name : string) (body_item : node) : list string :=
  match body_item with
  | FunctionDef method_name _ _ _ => [class_name +:+ "." +:+ method_name]
  | _ => []
  end.

Definition node_names (n : node) : list string :=
  match n with
  | FunctionDef func_name _ _ _ => [func_name]
  | ClassDef class_name _ body _ =>
      class_name :: flat_map (method_name_of class_name) body
  | _ => []
  end.

Definition written_names (tree : node) : list string :=
  flat_map node_names (ast_walk tree).

(** ** A sample project

    Working directory [/proj]; the paths are those [os.walk('.')] yields. *)

Definition ex_abspath (p : string) : string :=
  match p with
  | String "/"%char _ => p
  | String "."%char rest => "/proj" +:+ rest
  | _ => "/proj/" +:+ p
  end.

(** [helper.py]:
<<
def helper():
    pass
>> *)
Definition ex_helper_py : node :=
  Other [FunctionDef "helper" [] [Other []] []].

(** [worker.py]:
<<
class Worker:
    def run(self):
        pass
>> *)
Definition ex_worker_py : node :=
  Other [ClassDef "Worker" [] [FunctionDef "run" [] [Other []] []] []].

(** [use_worker.py]:
<<
Worker().run()
>> *)
Definition ex_use_worker_py : node :=
  Other [Other [Call (Attribute (Call (Name "Worker") []) "run") []]].

(** [twice.py]:
<<
def main():
    helper()
    helper()
>> *)
Definition ex_twice_py : node :=
  Other [FunctionDef "main" []
           [Other [Call (Name "helper") []]; Other [Call (Name "helper") []]] []].

(** [util.py]:
<<
def util():
    helper()
>> *)
Definition ex_util_py : node :=
  Other [FunctionDef "util" [] [Other [Call (Name "helper") []]] []].

(** [app.py]:
<<
import missing_module
import os
def app():
    helper()
    util()
>> *)
Definition ex_app_py : node :=
  Other [Import ["missing_module"]; Import ["os"];
         FunctionDef "app" []
           [Other [Call (Name "helper") []]; Other [Call (Name "util") []]] []].

(** [nested.py]:
<<
class Outer:
    class Inner:
        pass
    def after(self):
        pass
>> *)
Definition ex_nested_py : node :=
  Other [ClassDef "Outer" []
           [ClassDef "Inner" [] [Other []] [];
            FunctionDef "after" [] [Other []] []] []].

(** [bad.py] does not parse. *)
Definition ex_source (p : string) : result node :=
  if bool_decide (p = "./helper.py") then Ok ex_helper_py
  else if bool_decide (p = "./worker.py") then Ok ex_worker_py
  else if bool_decide (p = "./use_worker.py") then Ok ex_use_worker_py
  else if bool_decide (p = "./twice.py") then Ok ex_twice_py
  else if bool_decide (p = "./util.py") then Ok ex_util_py
  else if bool_decide (p = "./app.py") then Ok ex_app_py
  else if bool_decide (p = "./nested.py") then Ok ex_nested_py
  else if bool_decide (p = "./bad.py") then Raise (SyntaxError "invalid syntax")
  else Raise (OSError "No such file or directory").

(** [os] is found outside the project, [missing_module] nowhere. *)
Definition ex_find_spec (module_name : string) : find_spec_outcome :=
  if bool_decide (module_name = "os") then SpecFound (Some "/usr/lib/python3/os.py")
  else if bool_decide (module_name = "helper") then SpecFound (Some "/proj/helper.py")
  else SpecModuleNotFoundError.

(** ** Invariants of the traversal and of a run *)

(** What a visit of the plain variant may change: the file name and the
    table stay, the recorded calls and functions grow, and every call
    added leads from this file to another file of the table. *)
Record plain_extends (v v' : Plain.visitor) : Prop := {
  pe_filename : Plain.filename v' = Plain.filename v;
  pe_table : Plain.func_to_file v' = Plain.func_to_file v;
  pe_functions : Plain.functions v ⊆ Plain.functions v';
  pe_calls : Plain.function_calls v ⊆ Plain.function_calls v';
  pe_new : forall c, c ∈ Plain.function_calls v' ->
    c ∈ Plain.function_calls v \/
    (c.1 = Plain.filename v /\ c.2 <> Plain.filename v /\ truthy c.2 = true /\
     exists name, Plain.func_to_file v !! name = Some c.2) }.

(** What holds of every entry [visitors[path] = visitor] of a plain run. *)
Definition plain_entry_ok (table : gmap string string)
    (kv : string * Plain.visitor) : Prop :=
  Plain.filename kv.2 = kv.1 /\
  Plain.func_to_file kv.2 = table /\
  forall c, c ∈ Plain.function_calls kv.2 ->
    c.1 = kv.1 /\ c.2 <> kv.1 /\ truthy c.2 = true /\
    exists name, table !! name = Some c.2.

(** A visit leaves the class context as it found it or at [None]. *)
Definition context_kept (v v' : Plain.visitor) : Prop :=
  Plain.current_class v' = Plain.current_class v \/
  Plain.current_class v' = None.

(** The sequence number of a recorded call. *)
Definition seq_num (c : nat * string * string) : nat := c.1.1.

(** What a visit of the sequenced variant may change: the file name and
    the table stay; the calls it records go to the end of the list,
    numbered from the counter onwards without gaps, each from this file to
    another file of the table; the counter advances by their number. *)
Record seq_extends (st st' : nat * Sequenced.visitor) : Prop := {
  se_filename : Sequenced.filename st'.2 = Sequenced.filename st.2;
  se_table : Sequenced.func_to_file st'.2 = Sequenced.func_to_file st.2;
  se_new : exists new,
    Sequenced.calls_with_sequence st'.2 = Sequenced.calls_with_sequence st.2 ++ new /\
    map seq_num new = seq (S st.1) (length new) /\
    st'.1 = st.1 + length new /\
    Forall (fun c => c.1.2 = Sequenced.filename st.2 /\
                     c.2 <> Sequenced.filename st.2 /\
                     truthy c.2 = true /\
                     exists name, Sequenced.func_to_file st.2 !! name = Some c.2)
           new }.

Definition seq_call_ok (path : string) (table : gmap string string)
    (c : nat * string * string) : Prop :=
  c.1.2 = path /\ c.2 <> path /\ truthy c.2 = true /\
  exists name, table !! name = Some c.2.

(** What holds of every entry of a sequenced run. *)
Definition seq_entry_ok (table : gmap string string)
    (kv : string * Sequenced.visitor) : Prop :=
  Sequenced.filename kv.2 = kv.1 /\
  Sequenced.func_to_file kv.2 = table /\
  Forall (seq_call_ok kv.1 table) (Sequenced.calls_with_sequence kv.2).



(** The pair of files an edge joins. *)
Definition edge_ends (e : edge) : string * string := (edge_tail e, edge_head e).

(** ** What a node contributes to the record of its file *)

(** The file a call site leads to: the entry of the table under the name
    of the call, when the name and the entry are non-empty and the entry
    is not the calling file [self]. *)
Definition call_target (table : gmap string string) (self : string)
    (call : node) : option string :=
  match get_func_name call with
  | Some func_name =>
      if truthy func_name then
        match find_callee_file table func_name with
        | Some callee_file =>
            if truthy callee_file && bool_decide (callee_file ≠ self)
            then Some callee_file
            else None
        | None => None
        end
      else None
  | None => None
  end.

(** The output function a call site uses, if any. *)
Definition call_output (call : node) : option string :=
  match get_func_name call with
  | Some func_name =>
      if truthy func_name && is_output func_name then Some func_name else None
  | None => None
  end.

(** The module names an import statement records. *)
Definition import_names (n : node) : list string :=
  match n with
  | Import names => names
  | ImportFrom module names => map (Plain.imported_module module) names
  | _ => []
  end.

(** [x] occurs in [n] with no class definition on the way down to it,
    [n] included and [x] excluded. *)
Inductive outside_class (x : node) : node -> Prop :=
| outside_here : outside_class x x
| outside_child n c :
    (forall name bases body decos, n <> ClassDef name bases body decos) ->
    In c (iter_child_nodes n) -> outside_class x c -> outside_class x n.

(** Does a class definition occur in [n], at any depth? *)
Fixpoint contains_class (n : node) : bool :=
  let any := fix any (l : list node) : bool :=
    match l with
    | [] => false
    | x :: r => contains_class x || any r
    end in
  match n with
  | Name _ => false
  | Attribute value _ => contains_class value
  | Call func args => contains_class func || any args
  | FunctionDef _ args body decorator_list =>
      any args || (any body || any decorator_list)
  | ClassDef _ _ _ _ => true
  | Import _ => false
  | ImportFrom _ _ => false
  | Other fields => any fields
  end.

(** What a visit of the plain variant adds, with the node that accounts
    for each addition: a call site for a recorded call and for an output,
    a class or function definition for a name, an import statement for an
    import.  [self] and [table] are the visitor's file and table. *)
Record plain_from (self : string) (table : gmap string string) (n : node)
    (v v' : Plain.visitor) : Prop := {
  pf_calls : forall c, c ∈ Plain.function_calls v' ->
    c ∈ Plain.function_calls v \/
    (c.1 = self /\ exists x, subnode x n /\ call_target table self x = Some c.2);
  pf_outputs : forall o, o ∈ Plain.outputs v' ->
    o ∈ Plain.outputs v \/ exists x, subnode x n /\ call_output x = Some o;
  pf_classes : forall k, k ∈ Plain.classes v' ->
    k ∈ Plain.classes v \/
    exists bases body decos, subnode (ClassDef k bases body decos) n;
  pf_functions : forall f, f ∈ Plain.functions v' ->
    f ∈ Plain.functions v \/
    exists args body decos, subnode (FunctionDef f args body decos) n;
  pf_imports : forall i, i ∈ Plain.imports v' ->
    i ∈ Plain.imports v \/
    (i.1 = self /\ exists x, subnode x n /\ In i.2 (import_names x)) }.

(** The fields a visit of the plain variant only adds to. *)
Record plain_grows (v v' : Plain.visitor) : Prop := {
  pg_imports : Plain.imports v ⊆ Plain.imports v';
  pg_outputs : Plain.outputs v ⊆ Plain.outputs v';
  pg_classes : Plain.classes v ⊆ Plain.classes v' }.

(** No class definition of [n] has a class definition below it. *)
Fixpoint no_nested_class (n : node) : bool :=
  let all := fix all (l : list node) : bool :=
    match l with
    | [] => true
    | x :: r => no_nested_class x && all r
    end in
  match n with
  | Name _ => true
  | Attribute value _ => no_nested_class value
  | Call func args => no_nested_class func && all args
  | FunctionDef _ args body decorator_list =>
      all args && (all body && all decorator_list)
  | ClassDef _ bases body decorator_list =>
      negb (existsb contains_class (bases ++ body ++ decorator_list))
  | Import _ => true
  | ImportFrom _ _ => true
  | Other fields => all fields
  end.

(** The two variants hold the same record of a file: every field they
    share is equal, and the pairs of the plain variant's call set are the
    pairs of the sequenced variant's numbered calls. *)
Record variants_agree (v : Plain.visitor) (w : Sequenced.visitor) : Prop := {
  va_filename : Plain.filename v = Sequenced.filename w;
  va_table : Plain.func_to_file v = Sequenced.func_to_file w;
  va_imports : Plain.imports v = Sequenced.imports w;
  va_outputs : Plain.outputs v = Sequenced.outputs w;
  va_classes : Plain.classes v = Sequenced.classes w;
  va_functions : Plain.functions v = Sequenced.functions w;
  va_current_class : Plain.current_class v = Sequenced.current_class w;
  va_calls : forall c, c ∈ Plain.function_calls v <->
               exists n, In (n, c.1, c.2) (Sequenced.calls_with_sequence w) }.

(** A receiver that is neither a name nor an attribute access: a call, a
    subscript, a literal, ... *)
Definition opaque_receiver (e : node) : bool :=
  match e with
  | Name _ => false
  | Attribute _ _ => false
  | _ => true
  end.

(** [nested_def.py]:
<<
def outer():
    def inner():
        pass
>> *)
Definition ex_nested_def_py : node :=
  Other [FunctionDef "outer" [] [FunctionDef "inner" [] [Other []] []] []].

(** Two dictionaries of visitors, one of each variant, with the same
    paths in the same order and agreeing visitors. *)
Definition visitors_agree (vs : list (string * Plain.visitor))
    (ws : list (string * Sequenced.visitor)) : Prop :=
  Forall2 (fun kv kw => kv.1 = kw.1 /\ variants_agree kv.2 kw.2) vs ws.

(** [helper.py] importing itself, besides the sample project:
<<
import helper
def helper():
    pass
>> *)
Definition ex_self_import_py : node :=
  Other [Import ["helper"]; FunctionDef "helper" [] [Other []] []].

Definition ex_source_self (p : string) : result node :=
  if bool_decide (p = "./helper.py") then Ok ex_self_import_py else ex_source p.

(** Two files that define the same name, the first calling its own:
    [dup_a.py]
<<
def helper():
    pass
helper()
>>
    and [dup_b.py]
<<
def helper():
    pass
>> *)
Definition ex_dup_a_py : node :=
  Other [FunctionDef "helper" [] [Other []] []; Other [Call (Name "helper") []]].

Definition ex_source_dup (p : string) : result node :=
  if bool_decide (p = "./dup_a.py") then Ok ex_dup_a_py
  else if bool_decide (p = "./dup_b.py") then Ok ex_helper_py
  else Raise (OSError "No such file or directory").

(** ** Collecting the files

    [os.walk('.')] yields, directory by directory, the directory's path
    and the names of its files; [analyze_project] keeps the names that end
    in [.py], joined to the directory with [os.path.join]. *)

Definition starts_with_slash (b : string) : bool :=
  match b with
  | String "/"%char _ => true
  | _ => false
  end.

(** [os.path.join] of two components, on a POSIX system. *)
Definition path_join (a b : string) : string :=
  if starts_with_slash b then b
  else if negb (truthy a) || endswith a "/" then a +:+ b
  else a +:+ "/" +:+ b.

Definition collect_py_files (walk : list (string * list string)) : list string :=
  flat_map
    (fun entry =>
       map (path_join entry.1)
           (List.filter (fun file => endswith file ".py") entry.2))
    walk.

(** ** The call sites of a tree, in the order of the visit *)





(** ** A script that imports [__main__]

    [runner.py]:
<<
import __main__
>>
    Run as a script, [__main__] has no [__spec__], and for such a module
    [importlib.util.find_spec] raises [ValueError]. *)
Definition ex_runner_py : node := Other [Import ["__main__"]].

Definition ex_source_runner (p : string) : result node :=
  if bool_decide (p = "./runner.py") then Ok ex_runner_py else ex_source p.

Definition ex_find_spec_main (module_name : string) : find_spec_outcome :=
  if bool_decide (module_name = "__main__")
  then SpecRaises (OtherException "ValueError" "__main__.__spec__ is None")
  else ex_find_spec module_name.

(** * Facts *)

(** ** Syntax trees *)

Lemma node_children_ind (P : node -> Prop) :
  (forall n, Forall P (iter_child_nodes n) -> P n) -> forall n, P n.
Proof.
  intros step.
  refine (fix IH (n : node) : P n :=
    let all := fix all (l : list node) : Forall P l :=
      match l with
      | [] => List.Forall_nil P
      | x :: r => List.Forall_cons P x _ (IH x) (all r)
      end in
    step n
      (match n as n0 return Forall P (iter_child_nodes n0) with
       | Name _ => List.Forall_nil P
       | Attribute value _ => List.Forall_cons P value _ (IH value) (List.Forall_nil P)
       | Call func args => List.Forall_cons P func _ (IH func) (all args)
       | FunctionDef _ args body decos => _
       | ClassDef _ bases body decos => _
       | Import _ => List.Forall_nil P
       | ImportFrom _ _ => List.Forall_nil P
       | Other fields => all fields
       end)); simpl.
  - apply Forall_app; split; [apply (all args) | apply Forall_app; split];
      [apply (all body) | apply (all decos)].
  - apply Forall_app; split; [apply (all bases) | apply Forall_app; split];
      [apply (all body) | apply (all decos)].
Qed.

Lemma queue_size_app l1 l2 :
  queue_size (l1 ++ l2) = queue_size l1 + queue_size l2.
Proof. unfold queue_size. induction l1 as [|x r IH]; simpl; [reflexivity | lia]. Qed.

Lemma node_size_children n :
  node_size n = S (queue_size (iter_child_nodes n)).
Proof.
  assert (sizes_eq : forall l,
    (fix sizes (l : list node) : nat :=
       match l with [] => 0 | x :: r => node_size x + sizes r end) l
    = queue_size l).
  { induction l as [|x r IH]; simpl; [reflexivity | now rewrite IH]. }
  destruct n; simpl; rewrite ?queue_size_app; simpl; try lia;
    repeat first [apply sizes_eq | f_equal].
Qed.

Lemma node_size_pos n : 0 < node_size n.
Proof. rewrite node_size_children. lia. Qed.

Lemma subnode_trans x y z : subnode x y -> subnode y z -> subnode x z.
Proof.
  intros Hxy Hyz. induction Hyz as [|n c Hc _ IH]; [assumption |].
  eapply subnode_child; eauto.
Qed.

(** The queue-driven walk reaches every node below the nodes in the queue. *)
Lemma queue_size_cons m rest :
  queue_size (m :: rest) = node_size m + queue_size rest.
Proof. reflexivity. Qed.

Lemma walk_queue_complete fuel : forall todo n x,
  queue_size todo <= fuel -> In n todo -> subnode x n ->
  In x (walk_queue fuel todo).
Proof.
  induction fuel as [|fuel IH]; intros todo n x Hfuel Hn Hx.
  - destruct todo as [|m rest]; [destruct Hn |].
    rewrite queue_size_cons in Hfuel. pose proof (node_size_pos m). lia.
  - destruct todo as [|m rest]; [destruct Hn |].
    rewrite queue_size_cons, node_size_children in Hfuel.
    assert (Hq : queue_size (rest ++ iter_child_nodes m) <= fuel).
    { rewrite queue_size_app. lia. }
    simpl. destruct Hn as [->|Hn].
    + inversion Hx as [|n' c Hc Hsub]; subst.
      * now left.
      * right. apply (IH _ c x Hq); [apply in_or_app; now right | assumption].
    + right. apply (IH _ n x Hq); [apply in_or_app; now left | assumption].
Qed.

Lemma ast_walk_complete tree x : subnode x tree -> In x (ast_walk tree).
Proof.
  intros H. unfold ast_walk.
  apply (walk_queue_complete _ [tree] tree x);
    [rewrite queue_size_cons; simpl; lia | now left | assumption].
Qed.

(** ** The name-to-file table *)

Lemma elem_of_flat_map_cons {A B : Type} (f : A -> list B) x l (k : B) :
  k ∈ flat_map f (x :: l) <-> k ∈ f x \/ k ∈ flat_map f l.
Proof. simpl. apply elem_of_app. Qed.

(** A loop of writes that all store [file]: a key ends at [file] when some
    step names it and keeps its old entry otherwise. *)
Lemma fold_left_writes {X : Type} (f : gmap string string -> X -> gmap string string)
    (names : X -> list string) (file : string) :
  (forall m x k,
     f m x !! k = if decide (k ∈ names x) then Some file else m !! k) ->
  forall l m k,
    fold_left f l m !! k =
    if decide (k ∈ flat_map names l) then Some file else m !! k.
Proof.
  intros Hf. induction l as [|x l IH]; intros m k.
  - rewrite decide_False by apply not_elem_of_nil. done.
  - change (fold_left f (x :: l) m) with (fold_left f l (f m x)).
    rewrite IH, Hf.
    pose proof (elem_of_flat_map_cons names x l k) as Hc.
    repeat case_decide; try done; tauto.
Qed.

Lemma record_method_lookup file class_name (m : gmap string string) item k :
  record_method file class_name m item !! k =
  if decide (k ∈ method_name_of class_name item) then Some file else m !! k.
Proof.
  destruct item;
    try (rewrite decide_False by apply not_elem_of_nil; done).
  unfold record_method, method_name_of. case_decide as H.
  - apply list_elem_of_singleton in H as ->. apply lookup_insert_eq.
  - rewrite lookup_insert_ne; [done |]. intros <-. apply H. by left.
Qed.

Lemma record_node_lookup file (m : gmap string string) n k :
  record_node file m n !! k =
  if decide (k ∈ node_names n) then Some file else m !! k.
Proof.
  destruct n;
    try (rewrite decide_False by apply not_elem_of_nil; done);
    unfold record_node, node_names.
  - case_decide as H.
    + apply list_elem_of_singleton in H as ->. apply lookup_insert_eq.
    + rewrite lookup_insert_ne; [done |]. intros <-. apply H. by left.
  - rewrite (fold_left_writes _ _ file (record_method_lookup file name)).
    destruct (decide (k ∈ flat_map (method_name_of name) body)) as [H1|H1].
    + rewrite decide_True; [done | by right].
    + destruct (decide (k = name)) as [->|Hne].
      * rewrite lookup_insert_eq, decide_True; [done | by left].
      * rewrite lookup_insert_ne by done.
        rewrite decide_False; [done |].
        intros [?|?]%elem_of_cons; done.
Qed.

Lemma record_tree_lookup file tree (m : gmap string string) k :
  fold_left (record_node file) (ast_walk tree) m !! k =
  if decide (k ∈ written_names tree) then Some file else m !! k.
Proof. apply (fold_left_writes _ _ file (record_node_lookup file)). Qed.

Section TableFacts.

Context (abspath : string -> string) (source : string -> result node).

Lemma build_loop_app l1 l2 m :
  build_loop abspath source (l1 ++ l2) m = (m1 ← build_loop abspath source l1 m; build_loop abspath source l2 m1).
Proof.
  revert m. induction l1 as [|f l1 IH]; intros m; simpl; [done |].
  destruct (source f) as [tree|e]; simpl; [apply IH | done].
Qed.

Lemma build_loop_ok l : forall m,
  (forall f, In f l -> exists tree, source f = Ok tree) ->
  exists table, build_loop abspath source l m = Ok table.
Proof.
  induction l as [|f l IH]; intros m Hall; simpl; [eauto |].
  destruct (Hall f) as [tree ->]; [now left |]. simpl.
  apply IH. intros g Hg. apply Hall. now right.
Qed.

Lemma build_loop_untouched l k : forall m table,
  build_loop abspath source l m = Ok table ->
  (forall f tree, In f l -> source f = Ok tree -> k ∉ written_names tree) ->
  table !! k = m !! k.
Proof.
  induction l as [|f l IH]; intros m table Hb Hno; simpl in Hb.
  - by inversion Hb.
  - destruct (source f) as [tree|e] eqn:Hf; simpl in Hb; [| done].
    rewrite (IH _ _ Hb); [| intros g t Hg; apply Hno; now right].
    rewrite record_tree_lookup, decide_False; [done |].
    apply (Hno f); [now left | done].
Qed.

(** Every entry written by the loop is the path of a file of the run. *)
Lemma build_loop_range l k p : forall m table,
  build_loop abspath source l m = Ok table -> table !! k = Some p ->
  m !! k = Some p \/ exists f, In f l /\ p = abspath f.
Proof.
  induction l as [|f l IH]; intros m table Hb Hk; simpl in Hb.
  - inversion Hb; subst. by left.
  - destruct (source f) as [tree|e] eqn:Hf; simpl in Hb; [| done].
    destruct (IH _ _ Hb Hk) as [Hm|(g & Hg & ->)].
    + rewrite record_tree_lookup in Hm. case_decide.
      * inversion Hm; subst. right. exists f. split; [now left | done].
      * by left.
    + right. exists g. split; [now right | done].
Qed.

(** Last writer wins: a name filed by [file] and by no later file of the
    run resolves to [file]. *)
Lemma build_loop_last_writer pre file post tree k m table :
  build_loop abspath source (pre ++ file :: post) m = Ok table ->
  source file = Ok tree ->
  k ∈ written_names tree ->
  (forall f t, In f post -> source f = Ok t -> k ∉ written_names t) ->
  table !! k = Some (abspath file).
Proof.
  intros Hb Hsrc Hk Hpost.
  rewrite build_loop_app in Hb.
  destruct (build_loop abspath source pre m) as [m1|e]; simpl in Hb; [| done].
  rewrite Hsrc in Hb. simpl in Hb.
  rewrite (build_loop_untouched _ k _ _ Hb Hpost).
  rewrite record_tree_lookup, decide_True; done.
Qed.

End TableFacts.

(** ** The traversal of the plain variant *)

Section PlainVisit.

Import Plain.

Lemma plain_visit_all_app l1 l2 v :
  visit_all (l1 ++ l2) v = visit_all l2 (visit_all l1 v).
Proof. apply fold_left_app. Qed.

Lemma plain_visit_all_cons x l v :
  visit_all (x :: l) v = visit_all l (visit x v).
Proof. reflexivity. Qed.

(** Every method is: its own statements, the generic visit of the
    children, and for a class the reset of the class context. *)
Lemma plain_visit_unfold n v :
  visit n v = leave n (visit_all (iter_child_nodes n) (enter n v)).
Proof.
  assert (G : forall l v,
    (fix generic_visit (l : list node) (v : visitor) : visitor :=
       match l with
       | [] => v
       | x :: r => generic_visit r (visit x v)
       end) l v = visit_all l v).
  { induction l as [|x r IH]; intros v0; simpl; [reflexivity | apply IH]. }
  destruct n; simpl; rewrite ?plain_visit_all_app, <- ?G; reflexivity.
Qed.

Lemma plain_extends_refl v : plain_extends v v.
Proof. split; auto. Qed.

Lemma plain_extends_trans v1 v2 v3 :
  plain_extends v1 v2 -> plain_extends v2 v3 -> plain_extends v1 v3.
Proof.
  intros [F1 T1 U1 C1 N1] [F2 T2 U2 C2 N2]. split.
  - congruence.
  - congruence.
  - set_solver.
  - set_solver.
  - intros c Hc. destruct (N2 c Hc) as [H|H].
    + apply N1, H.
    + right. rewrite <- F1, <- T1. exact H.
Qed.

Lemma plain_extends_imports names (g : string -> string) v :
  plain_extends v
    (fold_left (fun v x => add_import (filename v, g x) v) names v).
Proof.
  revert v. induction names as [|x names IH]; intros v; simpl.
  - apply plain_extends_refl.
  - eapply plain_extends_trans; [| apply IH].
    split; simpl; auto.
Qed.

Lemma plain_extends_visit_Call call v : plain_extends v (visit_Call call v).
Proof.
  unfold visit_Call.
  destruct (get_func_name call) as [func_name|]; [| apply plain_extends_refl].
  destruct (truthy func_name); [| apply plain_extends_refl].
  assert (H1 : plain_extends v
    match find_callee_file (func_to_file v) func_name with
    | Some callee_file =>
        if truthy callee_file && bool_decide (callee_file ≠ filename v)
        then add_function_call (filename v, callee_file) v
        else v
    | None => v
    end).
  { unfold find_callee_file.
    destruct (func_to_file v !! func_name) as [callee_file|] eqn:Hk;
      [| apply plain_extends_refl].
    destruct (truthy callee_file) eqn:Ht; simpl; [| apply plain_extends_refl].
    case_bool_decide as Hne; [| apply plain_extends_refl].
    split; simpl; auto; [set_solver |].
    intros c [->%elem_of_singleton|Hc]%elem_of_union; [| by left].
    right. simpl. eauto. }
  destruct (is_output func_name); [| exact H1].
  eapply plain_extends_trans; [exact H1 |].
  split; simpl; auto.
Qed.

Lemma plain_extends_enter n v : plain_extends v (enter n v).
Proof.
  destruct n; simpl; try apply plain_extends_refl.
  - apply plain_extends_visit_Call.
  - unfold visit_FunctionDef. destruct (current_class v).
    + apply plain_extends_refl.
    + split; simpl; auto. set_solver.
  - split; simpl; auto.
  - apply (plain_extends_imports names (fun x => x)).
  - apply (plain_extends_imports names (imported_module module)).
Qed.

Lemma plain_extends_leave n v : plain_extends v (leave n v).
Proof. destruct n; simpl; try apply plain_extends_refl. split; simpl; auto. Qed.

Lemma plain_extends_visit_all l :
  Forall (fun n => forall v, plain_extends v (visit n v)) l ->
  forall v, plain_extends v (visit_all l v).
Proof.
  induction 1 as [|x l Hx _ IH]; intros v.
  - apply plain_extends_refl.
  - rewrite plain_visit_all_cons.
    eapply plain_extends_trans; [apply Hx | apply IH].
Qed.

Lemma plain_extends_visit n : forall v, plain_extends v (visit n v).
Proof.
  induction n as [n IH] using node_children_ind. intros v.
  rewrite plain_visit_unfold.
  eapply plain_extends_trans; [apply plain_extends_enter |].
  eapply plain_extends_trans; [| apply plain_extends_leave].
  apply plain_extends_visit_all, IH.
Qed.

Lemma plain_extends_all l v : plain_extends v (visit_all l v).
Proof.
  apply plain_extends_visit_all, Forall_forall.
  intros n _. apply plain_extends_visit.
Qed.

(** A node below the root is visited on the way, from a state the start
    extends to and into a state the end result extends. *)
Lemma plain_visit_subnode x n :
  subnode x n ->
  forall v, exists v1,
    plain_extends v v1 /\ plain_extends (visit x v1) (visit n v).
Proof.
  induction 1 as [|n c Hc _ IH]; intros v.
  - exists v. split; apply plain_extends_refl.
  - apply in_split in Hc as (l1 & l2 & Hl).
    destruct (IH (visit_all l1 (enter n v))) as (v1 & H1 & H2).
    exists v1. split.
    + eapply plain_extends_trans; [apply plain_extends_enter |].
      eapply plain_extends_trans; [apply plain_extends_all | exact H1].
    + rewrite (plain_visit_unfold n), Hl, plain_visit_all_app, plain_visit_all_cons.
      eapply plain_extends_trans; [exact H2 |].
      eapply plain_extends_trans; [apply plain_extends_all |].
      apply plain_extends_leave.
Qed.

End PlainVisit.

(** ** Dictionaries and lists *)

Lemma dict_set_In {V : Type} k (v : V) d k' v' :
  In (k', v') (dict_set k v d) -> (k', v') = (k, v) \/ In (k', v') d.
Proof.
  induction d as [|[k0 v0] d IH]; simpl.
  - intros [E|[]]. by left.
  - case_bool_decide as Hd; simpl.
    + intros [E|E]; [by left | right; by right].
    + intros [E|E]; [right; by left |].
      destruct (IH E); [by left | right; by right].
Qed.

Lemma dict_set_fresh {V : Type} k (v : V) d :
  k ∉ map fst d -> dict_set k v d = d ++ [(k, v)].
Proof.
  induction d as [|[k0 v0] d IH]; simpl; intros Hk; [done |].
  apply not_elem_of_cons in Hk as [Hne Hk].
  rewrite bool_decide_false by done. by rewrite IH.
Qed.

Lemma dict_set_keys_present {V : Type} k (v : V) d :
  k ∈ map fst d -> map fst (dict_set k v d) = map fst d.
Proof.
  induction d as [|[k0 v0] d IH]; simpl; intros Hk.
  - by apply elem_of_nil in Hk.
  - case_bool_decide as Heq; simpl; [by subst |].
    apply elem_of_cons in Hk as [Hk|Hk]; [done |]. by rewrite IH.
Qed.

Lemma dict_set_keys {V : Type} k (v : V) d k' :
  k' ∈ map fst (dict_set k v d) <-> k' = k \/ k' ∈ map fst d.
Proof.
  destruct (decide (k ∈ map fst d)) as [Hin|Hout].
  - rewrite dict_set_keys_present by done. split; [by right |].
    intros [->|H]; done.
  - rewrite dict_set_fresh by done.
    rewrite map_app, elem_of_app. simpl. rewrite list_elem_of_singleton. tauto.
Qed.

Lemma dict_set_NoDup {V : Type} k (v : V) d :
  NoDup (map fst d) -> NoDup (map fst (dict_set k v d)).
Proof.
  intros Hd. destruct (decide (k ∈ map fst d)) as [Hin|Hout].
  - by rewrite dict_set_keys_present.
  - rewrite dict_set_fresh by done. rewrite map_app. simpl.
    apply NoDup_app. split; [done |]. split.
    + intros x Hx ->%list_elem_of_singleton. done.
    + apply NoDup_singleton.
Qed.

Lemma dict_mem_true {V : Type} k (d : list (string * V)) :
  dict_mem k d = true <-> k ∈ map fst d.
Proof. unfold dict_mem. apply bool_decide_eq_true. Qed.



Lemma dict_get_set_eq {V : Type} k (v : V) d :
  dict_get k (dict_set k v d) = Some v.
Proof.
  induction d as [|[k0 v0] d IH]; simpl.
  - by rewrite bool_decide_true.
  - case_bool_decide as Hd; simpl.
    + by rewrite bool_decide_true.
    + by rewrite bool_decide_false.
Qed.

Lemma dict_get_set_ne {V : Type} k k' (v : V) d :
  k <> k' -> dict_get k' (dict_set k v d) = dict_get k' d.
Proof.
  intros Hne. induction d as [|[k0 v0] d IH]; simpl.
  - rewrite bool_decide_false; [done | congruence].
  - case_bool_decide as Hd; simpl.
    + subst k0. by rewrite !bool_decide_false by congruence.
    + by rewrite IH.
Qed.

(** ** Runs of the plain variant *)

Section PlainRun.

Import Plain.

Context (abspath : string -> string) (source : string -> result node).

Lemma plain_parse_file_ok f table v :
  parse_file abspath source f table = Ok v ->
  plain_entry_ok table (abspath f, v).
Proof.
  unfold parse_file. destruct (source f) as [tree|e]; simpl; [| done].
  intros [= <-].
  pose proof (plain_extends_visit tree (new_visitor abspath f table)) as [F T _ _ N].
  repeat split; simpl; try done.
  all: destruct (N c H) as [Hc|Hc]; [by apply elem_of_empty in Hc |]; simpl in Hc.
  all: rewrite ?F; simpl; tauto.
Qed.

Lemma plain_parse_loop_inv l table : forall vs vs',
  parse_loop abspath source l table vs = Ok vs' ->
  Forall (plain_entry_ok table) vs -> NoDup (map fst vs) ->
  Forall (plain_entry_ok table) vs' /\ NoDup (map fst vs') /\
  (forall k, k ∈ map fst vs' <-> k ∈ map fst vs \/ k ∈ map abspath l).
Proof.
  induction l as [|f l IH]; intros vs vs' Hrun Hok Hnd; simpl in Hrun.
  - inversion Hrun; subst. repeat split; auto.
    intros [H|H]; [done | by apply elem_of_nil in H].
  - destruct (parse_file abspath source f table) as [v|e] eqn:Hv; simpl in Hrun;
      [| done].
    apply IH in Hrun as (Hok' & Hnd' & Hkeys).
    + repeat split; auto.
      * intros Hk. apply Hkeys in Hk as [Hk|Hk].
        -- apply dict_set_keys in Hk as [->|Hk]; [right; by left | by left].
        -- right. by right.
      * intros Hk. apply Hkeys. rewrite dict_set_keys. simpl in Hk.
        rewrite elem_of_cons in Hk. tauto.
    + apply Forall_forall. intros [k' v'] Hin.
      apply list_elem_of_In, dict_set_In in Hin as [[= -> ->]|Hin].
      * by apply plain_parse_file_ok.
      * rewrite Forall_forall in Hok. apply Hok, list_elem_of_In, Hin.
    + by apply dict_set_NoDup.
Qed.

Lemma plain_analyze_inv l vs :
  analyze_project abspath source l = Ok vs ->
  exists table,
    build_function_to_file_map abspath source l = Ok table /\
    Forall (plain_entry_ok table) vs /\ NoDup (map fst vs) /\
    (forall k, k ∈ map fst vs <-> k ∈ map abspath l).
Proof.
  unfold analyze_project.
  destruct (build_function_to_file_map abspath source l) as [table|e]; simpl;
    [| done].
  intros Hrun. exists table. split; [done |].
  apply plain_parse_loop_inv in Hrun as (H1 & H2 & H3);
    [| constructor | apply NoDup_nil_2].
  repeat split; auto.
  - intros Hk. apply H3 in Hk as [Hk|Hk]; [by apply elem_of_nil in Hk | done].
  - intros Hk. apply H3. by right.
Qed.

Lemma plain_parse_loop_other l table k : forall vs vs',
  parse_loop abspath source l table vs = Ok vs' ->
  k ∉ map abspath l ->
  dict_get k vs' = dict_get k vs.
Proof.
  induction l as [|f l IH]; intros vs vs' Hrun Hk; simpl in Hrun.
  - by inversion Hrun.
  - destruct (parse_file abspath source f table) as [v|e]; simpl in Hrun; [| done].
    simpl in Hk. apply not_elem_of_cons in Hk as [Hne Hk].
    rewrite (IH _ _ Hrun Hk). by apply dict_get_set_ne.
Qed.

(** When the listing names each file once, the visitor kept for a file is
    the one made from that file's tree. *)
Lemma plain_parse_loop_get l table f tree : forall vs vs',
  parse_loop abspath source l table vs = Ok vs' ->
  NoDup (map abspath l) -> In f l -> source f = Ok tree ->
  dict_get (abspath f) vs' =
  Some (visit tree (new_visitor abspath f table)).
Proof.
  induction l as [|g l IH]; intros vs vs' Hrun Hnd Hin Hsrc; [destruct Hin |].
  simpl in Hrun, Hnd. apply NoDup_cons in Hnd as [Hg Hnd].
  destruct (parse_file abspath source g table) as [v|e] eqn:Hv; simpl in Hrun;
    [| done].
  destruct Hin as [->|Hin].
  - rewrite (plain_parse_loop_other _ _ _ _ _ Hrun Hg), dict_get_set_eq.
    unfold parse_file in Hv. rewrite Hsrc in Hv. simpl in Hv. congruence.
  - by apply (IH _ _ Hrun).
Qed.

(** A run over files that all parse returns. *)
End PlainRun.

(** * The claims *)

(** ** Resolution of call names *)

Lemma attribute_parts_chain attrs : forall e parts,
  attribute_parts (fold_left Attribute attrs e) parts =
  attribute_parts e (attrs ++ parts).
Proof.
  induction attrs as [|a attrs IH]; intros e parts; simpl; [reflexivity |].
  rewrite IH. reflexivity.
Qed.

Lemma get_func_name_chain attrs : forall e a args,
  get_func_name (Call (fold_left Attribute attrs (Attribute e a)) args) =
  Some (get_attribute_name (fold_left Attribute attrs (Attribute e a))).
Proof.
  induction attrs as [|a' attrs IH]; intros e a args; [reflexivity |].
  exact (IH (Attribute e a) a' args).
Qed.

(** C9. The name of a call is the identifier for a bare call and the
    parts of the chain joined with dots, base first, for a dotted call.
    The table is consulted under exactly that name: an entry filed under
    the name is found, an entry under any other key ([Foo], [module.foo])
    leaves the lookup of [name] as it was, and an empty table finds
    nothing.  So a call whose name is filed under a file other than the
    visitor's own is recorded as a call to that file, whatever else the
    table holds, and a call whose name has no entry records nothing. *)
Theorem C9_call_name_exact_lookup
    (table : gmap string string) (key file name base : string)
    (attrs : list string) (args : list node) (v : Plain.visitor) :
  key <> name ->
  get_func_name (Call (Name name) args) = Some name /\
  get_func_name (Call (attribute_chain base attrs) args) =
    Some (String.concat "." (base :: attrs)) /\
  find_callee_file (<[name := file]> table) name = Some file /\
  find_callee_file (<[key := file]> table) name = find_callee_file table name /\
  find_callee_file ∅ name = None /\
  (forall call callee,
     get_func_name call = Some name -> truthy name = true ->
     Plain.func_to_file v !! name = Some callee ->
     truthy callee = true -> callee <> Plain.filename v ->
     (Plain.filename v, callee) ∈ Plain.function_calls (Plain.visit_Call call v)) /\
  (Plain.func_to_file v !! name = None ->
   Plain.function_calls (Plain.visit_Call (Call (Name name) args) v) =
   Plain.function_calls v).
Proof.
  intros Hne. split; [reflexivity |]. split; [| split; [| split; [| split; [| split]]]].
  - unfold attribute_chain. destruct attrs as [|a attrs]; [reflexivity |].
    change (fold_left Attribute (a :: attrs) (Name base))
      with (fold_left Attribute attrs (Attribute (Name base) a)).
    rewrite get_func_name_chain. unfold get_attribute_name.
    rewrite attribute_parts_chain. simpl. rewrite app_nil_r. reflexivity.
  - unfold find_callee_file. apply lookup_insert_eq.
  - unfold find_callee_file. by apply lookup_insert_ne.
  - unfold find_callee_file. apply lookup_empty.
  - intros call callee Hcall Hname Hfiled Hcallee Hother.
    unfold Plain.visit_Call, find_callee_file.
    rewrite Hcall, Hname, Hfiled, Hcallee, bool_decide_true by done. simpl.
    destruct (is_output name); simpl;
      apply elem_of_union_l, elem_of_singleton; reflexivity.
  - intros Hnone. unfold Plain.visit_Call, find_callee_file. simpl.
    destruct (truthy name); [| reflexivity].
    rewrite Hnone. destruct (is_output name); reflexivity.
Qed.

(** A table with entries under [Foo], [module.foo] and [foo]: the call
    [foo()] in [x.py] finds the entry under [foo] and no other, and is
    recorded as a call to its file. *)
Lemma C9_witness :
  "Foo" <> "foo" /\
  get_func_name (Call (attribute_chain "a" ["b"; "c"]) []) = Some "a.b.c" /\
  find_callee_file
    (<["Foo" := "/proj/y.py"]> (<["module.foo" := "/proj/y.py"]> ∅)) "foo" = None /\
  find_callee_file
    (<["Foo" := "/proj/y.py"]> (<["foo" := "/proj/z.py"]> ∅)) "foo"
    = Some "/proj/z.py" /\
  ("/proj/x.py", "/proj/z.py") ∈
    Plain.function_calls
      (Plain.visit_Call (Call (Name "foo") [])
         (Plain.new_visitor ex_abspath "./x.py"
            (<["Foo" := "/proj/y.py"]> (<["foo" := "/proj/z.py"]> ∅)))).
Proof.
  assert (Hne : "Foo" <> "foo") by discriminate.
  pose proof (C9_call_name_exact_lookup
                (<["module.foo" := "/proj/y.py"]> ∅) "Foo" "/proj/y.py" "foo"
                "a" ["b"; "c"] [] (Plain.new_visitor ex_abspath "./x.py" ∅) Hne)
    as (_ & Hchain & _ & Hother & _).
  pose proof (C9_call_name_exact_lookup
                ∅ "Foo" "/proj/z.py" "foo" "a" [] []
                (Plain.new_visitor ex_abspath "./x.py" ∅) Hne)
    as (_ & _ & Hfound & _).
  pose proof (C9_call_name_exact_lookup
                (<["foo" := "/proj/z.py"]> ∅) "Foo" "/proj/y.py" "foo" "a" [] []
                (Plain.new_visitor ex_abspath "./x.py"
                   (<["Foo" := "/proj/y.py"]> (<["foo" := "/proj/z.py"]> ∅))) Hne)
    as (_ & _ & _ & Hkept & _ & Hrec & _).
  split; [exact Hne |]. split; [exact Hchain |]. split; [| split].
  - rewrite Hother. reflexivity.
  - rewrite Hkept. exact Hfound.
  - apply (Hrec (Call (Name "foo") []) "/proj/z.py");
      [reflexivity | reflexivity | | reflexivity | discriminate].
    change (find_callee_file
              (<["Foo" := "/proj/y.py"]> (<["foo" := "/proj/z.py"]> ∅)) "foo"
            = Some "/proj/z.py").
    rewrite Hkept. exact Hfound.
Defined.

(** ** Imports that do not resolve *)

(** [find_source_file] raises exactly what [find_spec] raises, apart from
    [ModuleNotFoundError], which it catches. *)
Lemma find_source_file_raise abspath find_spec module_name e :
  find_source_file abspath find_spec module_name = Raise e <->
  find_spec module_name = SpecRaises e.
Proof.
  unfold find_source_file.
  destruct (find_spec module_name) as [[origin|]| | |ex];
    try (split; discriminate).
  - destruct (truthy origin && endswith origin ".py"); split; discriminate.
  - split; congruence.
Qed.

Lemma plain_import_edge_raise abspath find_spec vs imp e :
  Plain.import_edge abspath find_spec vs imp = Raise e <->
  find_spec imp.2 = SpecRaises e.
Proof.
  rewrite <- (find_source_file_raise abspath). unfold Plain.import_edge.
  destruct (find_source_file abspath find_spec imp.2) as [[q|]|ex]; simpl;
    try (split; discriminate); [| split; congruence].
  destruct (truthy q && dict_mem q vs); split; discriminate.
Qed.

Lemma seq_import_edge_raise abspath find_spec ws imp e :
  Sequenced.import_edge abspath find_spec ws imp = Raise e <->
  find_spec imp.2 = SpecRaises e.
Proof.
  rewrite <- (find_source_file_raise abspath). unfold Sequenced.import_edge.
  destruct (find_source_file abspath find_spec imp.2) as [[q|]|ex]; simpl;
    try (split; discriminate); [| split; congruence].
  destruct (truthy q && dict_mem q ws); split; discriminate.
Qed.

(** A loop over imports of which one raises in [find_spec] raises, and
    what it raises is what [find_spec] raises on one of them. *)
Lemma plain_import_edges_of_raise abspath find_spec vs imps imp e :
  In imp imps -> find_spec imp.2 = SpecRaises e ->
  exists imp' e', In imp' imps /\ find_spec imp'.2 = SpecRaises e' /\
    Plain.import_edges_of abspath find_spec vs imps = Raise e'.
Proof.
  induction imps as [|imp0 imps IH]; intros Hin He; [destruct Hin |].
  simpl. destruct (Plain.import_edge abspath find_spec vs imp0) as [l|e0] eqn:H0.
  - destruct Hin as [->|Hin].
    + apply (plain_import_edge_raise abspath find_spec vs) in He. congruence.
    + destruct (IH Hin He) as (imp' & e' & Hin' & He' & ->).
      exists imp', e'. simpl. auto.
  - apply plain_import_edge_raise in H0. exists imp0, e0. simpl. auto.
Qed.

Lemma seq_import_edges_of_raise abspath find_spec ws imps imp e :
  In imp imps -> find_spec imp.2 = SpecRaises e ->
  exists imp' e', In imp' imps /\ find_spec imp'.2 = SpecRaises e' /\
    Sequenced.import_edges_of abspath find_spec ws imps = Raise e'.
Proof.
  induction imps as [|imp0 imps IH]; intros Hin He; [destruct Hin |].
  simpl. destruct (Sequenced.import_edge abspath find_spec ws imp0) as [l|e0] eqn:H0.
  - destruct Hin as [->|Hin].
    + apply (seq_import_edge_raise abspath find_spec ws) in He. congruence.
    + destruct (IH Hin He) as (imp' & e' & Hin' & He' & ->).
      exists imp', e'. simpl. auto.
  - apply seq_import_edge_raise in H0. exists imp0, e0. simpl. auto.
Qed.

Lemma plain_import_edges_loop_raise abspath find_spec vs todo v imp e :
  In v todo -> imp ∈ Plain.imports v -> find_spec imp.2 = SpecRaises e ->
  exists v' imp' e', In v' todo /\ imp' ∈ Plain.imports v' /\
    find_spec imp'.2 = SpecRaises e' /\
    Plain.import_edges_loop abspath find_spec vs todo = Raise e'.
Proof.
  induction todo as [|v0 todo IH]; intros Hv Himp He; [destruct Hv |].
  simpl.
  destruct (Plain.import_edges_of abspath find_spec vs (elements (Plain.imports v0)))
    as [l|e0] eqn:H0.
  - destruct Hv as [->|Hv].
    + destruct (plain_import_edges_of_raise abspath find_spec vs
                  (elements (Plain.imports v)) imp e) as (? & ? & _ & _ & H);
        [by apply list_elem_of_In, elem_of_elements | exact He |].
      congruence.
    + destruct (IH Hv Himp He) as (v' & imp' & e' & Hv' & Hi' & He' & ->).
      exists v', imp', e'. simpl. auto.
  - assert (Hsome : exists imp0 e1, In imp0 (elements (Plain.imports v0)) /\
                      find_spec imp0.2 = SpecRaises e1 /\ e0 = e1).
    { clear -H0. revert H0. generalize (elements (Plain.imports v0)).
      induction l as [|x l IHl]; simpl; [discriminate |].
      destruct (Plain.import_edge abspath find_spec vs x) as [lx|ex] eqn:Hx; simpl.
      - destruct (Plain.import_edges_of abspath find_spec vs l) as [ll|el];
          simpl; [discriminate |].
        intros [= <-]. destruct (IHl eq_refl) as (i & e1 & Hi & He1 & E).
        exists i, e1. auto.
      - intros [= <-]. apply plain_import_edge_raise in Hx. exists x, ex. auto. }
    destruct Hsome as (imp0 & e1 & Hi0 & He1 & ->).
    exists v0, imp0, e1. simpl.
    split; [by left |].
    split; [by apply elem_of_elements, list_elem_of_In |]. auto.
Qed.

Lemma seq_import_edges_loop_raise abspath find_spec ws todo w imp e :
  In w todo -> imp ∈ Sequenced.imports w -> find_spec imp.2 = SpecRaises e ->
  exists w' imp' e', In w' todo /\ imp' ∈ Sequenced.imports w' /\
    find_spec imp'.2 = SpecRaises e' /\
    Sequenced.import_edges_loop abspath find_spec ws todo = Raise e'.
Proof.
  induction todo as [|w0 todo IH]; intros Hw Himp He; [destruct Hw |].
  simpl.
  destruct (Sequenced.import_edges_of abspath find_spec ws
              (elements (Sequenced.imports w0))) as [l|e0] eqn:H0.
  - destruct Hw as [->|Hw].
    + destruct (seq_import_edges_of_raise abspath find_spec ws
                  (elements (Sequenced.imports w)) imp e) as (? & ? & _ & _ & H);
        [by apply list_elem_of_In, elem_of_elements | exact He |].
      congruence.
    + destruct (IH Hw Himp He) as (w' & imp' & e' & Hw' & Hi' & He' & ->).
      exists w', imp', e'. simpl. auto.
  - assert (Hsome : exists imp0 e1, In imp0 (elements (Sequenced.imports w0)) /\
                      find_spec imp0.2 = SpecRaises e1 /\ e0 = e1).
    { clear -H0. revert H0. generalize (elements (Sequenced.imports w0)).
      induction l as [|x l IHl]; simpl; [discriminate |].
      destruct (Sequenced.import_edge abspath find_spec ws x) as [lx|ex] eqn:Hx;
        simpl.
      - destruct (Sequenced.import_edges_of abspath find_spec ws l) as [ll|el];
          simpl; [discriminate |].
        intros [= <-]. destruct (IHl eq_refl) as (i & e1 & Hi & He1 & E).
        exists i, e1. auto.
      - intros [= <-]. apply seq_import_edge_raise in Hx. exists x, ex. auto. }
    destruct Hsome as (imp0 & e1 & Hi0 & He1 & ->).
    exists w0, imp0, e1. simpl.
    split; [by left |].
    split; [by apply elem_of_elements, list_elem_of_In |]. auto.
Qed.

(** C8, as the code has it.  An import is dropped without an edge and
    without an error when [find_spec] returns [None], raises
    [ModuleNotFoundError], or gives a spec whose origin is missing, is no
    [.py] file, or is a file that is not among the analysed files: its
    iteration of the loop yields no edge and the loop over the remaining
    imports goes on as if it were absent.  Any other exception of
    [find_spec] is not caught: the iteration raises it, and a diagram
    whose visitors hold such an import is not drawn, the exception raised
    being that of one of these imports.  Both variants. *)
Theorem C8_unresolved_import_dropped
    (abspath : string -> string) (find_spec : string -> find_spec_outcome)
    (visitors : list (string * Plain.visitor))
    (visitors' : list (string * Sequenced.visitor))
    (importer_file imported_module : string) (rest : list (string * string)) :
  ((find_spec imported_module = SpecNone \/
    find_spec imported_module = SpecModuleNotFoundError \/
    find_spec imported_module = SpecFound None \/
    (exists origin, find_spec imported_module = SpecFound (Some origin) /\
       (endswith origin ".py" = false \/
        ((abspath origin ∉ map fst visitors) /\
         (abspath origin ∉ map fst visitors'))))) ->
   Plain.import_edge abspath find_spec visitors (importer_file, imported_module)
     = Ok [] /\
   Plain.import_edges_of abspath find_spec visitors
       ((importer_file, imported_module) :: rest)
     = Plain.import_edges_of abspath find_spec visitors rest /\
   Sequenced.import_edge abspath find_spec visitors' (importer_file, imported_module)
     = Ok [] /\
   Sequenced.import_edges_of abspath find_spec visitors'
       ((importer_file, imported_module) :: rest)
     = Sequenced.import_edges_of abspath find_spec visitors' rest) /\
  (forall e, find_spec imported_module = SpecRaises e ->
     Plain.import_edge abspath find_spec visitors (importer_file, imported_module)
       = Raise e /\
     Sequenced.import_edge abspath find_spec visitors'
         (importer_file, imported_module)
       = Raise e /\
     ((exists path v, In (path, v) visitors /\
         (importer_file, imported_module) ∈ Plain.imports v) ->
      exists path v imp e',
        In (path, v) visitors /\ imp ∈ Plain.imports v /\
        find_spec imp.2 = SpecRaises e' /\
        Plain.create_execution_diagram abspath find_spec visitors = Raise e') /\
     ((exists path w, In (path, w) visitors' /\
         (importer_file, imported_module) ∈ Sequenced.imports w) ->
      exists path w imp e',
        In (path, w) visitors' /\ imp ∈ Sequenced.imports w /\
        find_spec imp.2 = SpecRaises e' /\
        Sequenced.create_execution_diagram abspath find_spec visitors' = Raise e')).
Proof.
  split.
  - intros Hunres.
    assert (H1 : Plain.import_edge abspath find_spec visitors
                   (importer_file, imported_module) = Ok []).
    { unfold Plain.import_edge, find_source_file. simpl.
      destruct Hunres as [-> |[-> |[-> |(origin & -> & Ho)]]]; try reflexivity.
      destruct Ho as [-> |[Hp _]]; [by rewrite andb_false_r |].
      destruct (truthy origin && endswith origin ".py"); simpl; [| reflexivity].
      destruct (dict_mem (abspath origin) visitors) eqn:Hm.
      - apply dict_mem_true in Hm. contradiction.
      - by rewrite andb_false_r. }
    assert (H2 : Sequenced.import_edge abspath find_spec visitors'
                   (importer_file, imported_module) = Ok []).
    { unfold Sequenced.import_edge, find_source_file. simpl.
      destruct Hunres as [-> |[-> |[-> |(origin & -> & Ho)]]]; try reflexivity.
      destruct Ho as [-> |[_ Hp]]; [by rewrite andb_false_r |].
      destruct (truthy origin && endswith origin ".py"); simpl; [| reflexivity].
      destruct (dict_mem (abspath origin) visitors') eqn:Hm.
      - apply dict_mem_true in Hm. contradiction.
      - by rewrite andb_false_r. }
    split; [exact H1 |]. split; [| split; [exact H2 |]].
    + simpl. rewrite H1. simpl.
      destruct (Plain.import_edges_of abspath find_spec visitors rest); reflexivity.
    + simpl. rewrite H2. simpl.
      destruct (Sequenced.import_edges_of abspath find_spec visitors' rest);
        reflexivity.
  - intros e He. split; [| split; [| split]].
    + by apply plain_import_edge_raise.
    + by apply seq_import_edge_raise.
    + intros (path & v & Hin & Himp).
      destruct (plain_import_edges_loop_raise abspath find_spec visitors
                  (dict_values visitors) v (importer_file, imported_module) e)
        as (v' & imp' & e' & Hv' & Hi' & He' & Hloop);
        [by apply (in_map snd _ (path, v)) | exact Himp | exact He |].
      apply in_map_iff in Hv' as ([path' v''] & <- & Hin').
      exists path', v'', imp', e'.
      unfold Plain.create_execution_diagram, Plain.import_edges.
      rewrite Hloop. auto.
    + intros (path & w & Hin & Himp).
      destruct (seq_import_edges_loop_raise abspath find_spec visitors'
                  (dict_values visitors') w (importer_file, imported_module) e)
        as (w' & imp' & e' & Hw' & Hi' & He' & Hloop);
        [by apply (in_map snd _ (path, w)) | exact Himp | exact He |].
      apply in_map_iff in Hw' as ([path' w''] & <- & Hin').
      exists path', w'', imp', e'.
      unfold Sequenced.create_execution_diagram, Sequenced.import_edges.
      rewrite Hloop. auto.
Qed.

(** Scenario 2 on the sample project: [app.py] imports [missing_module],
    which is found nowhere, and [os], which lies outside the project; the
    graph has no import edge.  And an import of [__main__], on which
    [find_spec] raises [ValueError], makes its iteration raise. *)
Lemma C8_witness :
  ex_find_spec "missing_module" = SpecModuleNotFoundError /\
  Plain.import_edge ex_abspath ex_find_spec [] ("/proj/app.py", "missing_module")
    = Ok [] /\
  (exists g,
     Plain.main ex_abspath ex_source ex_find_spec
       ["./helper.py"; "./util.py"; "./app.py"] = Ok g /\
     filter (fun e => bool_decide (edge_label e = "imports")) (graph_edges g) = []) /\
  Plain.import_edge ex_abspath ex_find_spec_main [] ("/proj/runner.py", "__main__")
    = Raise (OtherException "ValueError" "__main__.__spec__ is None").
Proof.
  assert (H : ex_find_spec "missing_module" = SpecModuleNotFoundError)
    by reflexivity.
  split; [exact H |]. split; [| split].
  - apply (C8_unresolved_import_dropped ex_abspath ex_find_spec [] []
             "/proj/app.py" "missing_module" []). right. left. exact H.
  - eexists. split; vm_compute; reflexivity.
  - apply (C8_unresolved_import_dropped ex_abspath ex_find_spec_main [] []
             "/proj/runner.py" "__main__" []). reflexivity.
Defined.

(** C8, as the claim has it, fails on a script that imports [__main__]:
    the module name resolves to no file, and the run raises the
    [ValueError] of [find_spec] instead of dropping the import. *)
Lemma C8_counterexample :
  find_source_file ex_abspath ex_find_spec_main "__main__"
    = Raise (OtherException "ValueError" "__main__.__spec__ is None") /\
  Plain.main ex_abspath ex_source_runner ex_find_spec_main ["./runner.py"]
    = Raise (OtherException "ValueError" "__main__.__spec__ is None") /\
  Sequenced.main ex_abspath ex_source_runner ex_find_spec_main ["./runner.py"]
    = Raise (OtherException "ValueError" "__main__.__spec__ is None") /\
  ~ exists g,
      Plain.main ex_abspath ex_source_runner ex_find_spec_main ["./runner.py"]
        = Ok g.
Proof.
  assert (H : Plain.main ex_abspath ex_source_runner ex_find_spec_main
                ["./runner.py"]
              = Raise (OtherException "ValueError" "__main__.__spec__ is None"))
    by (vm_compute; reflexivity).
  split; [reflexivity |]. split; [exact H |].
  split; [vm_compute; reflexivity |].
  intros (g & Hg). rewrite H in Hg. discriminate.
Qed.

(** ** Files that do not parse *)

(** A table is returned only when every listed file was read and
    parsed. *)
Lemma build_loop_ok_inv abspath source l : forall m table,
  build_loop abspath source l m = Ok table ->
  forall f, In f l -> exists tree, source f = Ok tree.
Proof.
  induction l as [|g l IH]; intros m table Hb f Hf; [destruct Hf |].
  simpl in Hb. destruct (source g) as [tree|e] eqn:Hg; simpl in Hb; [| done].
  destruct Hf as [<-|Hf]; [eauto | by apply (IH _ _ Hb)].
Qed.

(** C1, as the code has it.  Nothing catches the failure of [open] or
    [ast.parse]: when [file] is the first file of the listing that cannot
    be read or parsed, its exception [e] leaves
    [build_function_to_file_map], whatever comes after it in the listing,
    so [analyze_project] returns no visitor for any file and no graph is
    made.  [parse_file] does not catch it either, and the loop over the
    files stops at the file on which it is raised.  A run that returns its
    visitors is a run all of whose files were read and parsed.  Both
    variants. *)
Theorem C1_parse_failure_aborts_run
    (abspath : string -> string) (source : string -> result node)
    (find_spec : string -> find_spec_outcome) (counter : nat)
    (pre post : list string) (file : string) (e : exn) :
  (forall f, In f pre -> exists tree, source f = Ok tree) ->
  source file = Raise e ->
  build_function_to_file_map abspath source (pre ++ file :: post) = Raise e /\
  Plain.analyze_project abspath source (pre ++ file :: post) = Raise e /\
  Plain.main abspath source find_spec (pre ++ file :: post) = Raise e /\
  Sequenced.analyze_project abspath source counter (pre ++ file :: post)
    = Raise e /\
  Sequenced.main abspath source find_spec (pre ++ file :: post) = Raise e /\
  (forall table visitors,
     Plain.parse_file abspath source file table = Raise e /\
     Plain.parse_loop abspath source (file :: post) table visitors = Raise e) /\
  (forall table visitors,
     Sequenced.parse_file abspath source file table counter = Raise e /\
     Sequenced.parse_loop abspath source (file :: post) table counter visitors
       = Raise e) /\
  (forall py_files visitors,
     Plain.analyze_project abspath source py_files = Ok visitors ->
     forall f, In f py_files -> exists tree, source f = Ok tree) /\
  (forall py_files st,
     Sequenced.analyze_project abspath source counter py_files = Ok st ->
     forall f, In f py_files -> exists tree, source f = Ok tree).
Proof.
  intros Hpre Hbad.
  assert (Hb : build_function_to_file_map abspath source (pre ++ file :: post)
               = Raise e).
  { unfold build_function_to_file_map. rewrite build_loop_app.
    destruct (build_loop_ok abspath source pre ∅ Hpre) as [m ->].
    simpl. by rewrite Hbad. }
  split; [exact Hb |].
  unfold Plain.main, Sequenced.main, Plain.analyze_project,
    Sequenced.analyze_project.
  rewrite Hb. simpl.
  split; [reflexivity |]. split; [reflexivity |]. split; [reflexivity |].
  split; [reflexivity |]. split; [| split; [| split]].
  - intros table visitors. unfold Plain.parse_file. by rewrite Hbad.
  - intros table visitors. unfold Sequenced.parse_file. by rewrite Hbad.
  - intros py_files visitors Hrun.
    destruct (build_function_to_file_map abspath source py_files) as [t|ex] eqn:Ht;
      [| done].
    by apply (build_loop_ok_inv abspath source _ _ _ Ht).
  - intros py_files st Hrun.
    destruct (build_function_to_file_map abspath source py_files) as [t|ex] eqn:Ht;
      [| done].
    by apply (build_loop_ok_inv abspath source _ _ _ Ht).
Qed.

(** [bad.py] does not parse and [gone.py] cannot be opened: the run
    raises the [SyntaxError] of [bad.py], the first of the two. *)
Lemma C1_witness :
  ex_source "./bad.py" = Raise (SyntaxError "invalid syntax") /\
  ex_source "./gone.py" = Raise (OSError "No such file or directory") /\
  Plain.analyze_project ex_abspath ex_source
    ["./helper.py"; "./bad.py"; "./gone.py"; "./util.py"]
    = Raise (SyntaxError "invalid syntax").
Proof.
  split; [reflexivity |]. split; [reflexivity |].
  destruct (C1_parse_failure_aborts_run ex_abspath ex_source ex_find_spec 0
              ["./helper.py"] ["./gone.py"; "./util.py"] "./bad.py"
              (SyntaxError "invalid syntax"))
    as (_ & Hrun & _).
  - intros f [<-|[]]. eexists. reflexivity.
  - reflexivity.
  - exact Hrun.
Defined.

(** C1, as the claim has it, fails on a run of one file that parses and
    one that does not: the run raises, so the file that parses is not
    analysed. *)
Lemma C1_counterexample :
  Plain.analyze_project ex_abspath ex_source ["./helper.py"; "./bad.py"]
    = Raise (SyntaxError "invalid syntax") /\
  ~ exists visitors,
      Plain.analyze_project ex_abspath ex_source ["./helper.py"; "./bad.py"]
        = Ok visitors /\
      "/proj/helper.py" ∈ map fst visitors.
Proof.
  assert (H : Plain.analyze_project ex_abspath ex_source ["./helper.py"; "./bad.py"]
              = Raise (SyntaxError "invalid syntax")) by reflexivity.
  split; [exact H |].
  intros (visitors & Hrun & _). rewrite H in Hrun. discriminate.
Qed.

(** ** Names filed by the builder *)

(** Every function definition of a file, at any depth, gets an entry
    under its bare name. *)
Lemma nested_function_filed_bare
    (abspath : string -> string) (source : string -> result node)
    py_files table f tree name args body decos :
  build_function_to_file_map abspath source py_files = Ok table ->
  In f py_files -> source f = Ok tree ->
  subnode (FunctionDef name args body decos) tree ->
  exists file, In file py_files /\ table !! name = Some (abspath file).
Proof.
  intros Hb Hin Hsrc Hsub.
  assert (Hw : name ∈ written_names tree).
  { apply list_elem_of_In, in_flat_map. eexists. split.
    - apply ast_walk_complete, Hsub.
    - simpl. by left. }
  clear Hsub. unfold build_function_to_file_map in Hb.
  revert Hb. generalize (∅ : gmap string string). revert table f tree Hin Hsrc Hw.
  induction py_files as [|g l IH] using rev_ind;
    intros table f tree Hin Hsrc Hw m Hb;
    [destruct Hin |].
  rewrite build_loop_app in Hb.
  destruct (build_loop abspath source l m) as [m1|e] eqn:Hl; simpl in Hb; [| done].
  destruct (source g) as [tg|e] eqn:Hg; simpl in Hb; [| done].
  inversion Hb; subst table. rewrite record_tree_lookup.
  case_decide as Hd.
  - exists g. split; [apply in_or_app; right; by left | done].
  - apply in_app_or in Hin as [Hin|[->|[]]].
    + destruct (IH m1 f tree Hin Hsrc Hw m Hl) as (file & Hfile & Hk).
      exists file. split; [apply in_or_app; by left | done].
    + rewrite Hsrc in Hg. inversion Hg; subst. contradiction.
Qed.

(** C3 does not hold of the code: the builder walks every node of the
    tree, so the method [run] of class [Worker] gets an entry under the
    bare name [run] besides the entry [Worker.run]. *)
Theorem C3_method_filed_under_bare_name :
  exists table,
    build_function_to_file_map ex_abspath ex_source ["./worker.py"] = Ok table /\
    table !! "run" = Some "/proj/worker.py" /\
    table !! "Worker.run" = Some "/proj/worker.py" /\
    table !! "Worker" = Some "/proj/worker.py".
Proof. eexists. split; [reflexivity |]. repeat split; vm_compute; reflexivity. Qed.

(** ** The class context *)

Section ClassContext.

Import Plain.

Lemma context_kept_trans v1 v2 v3 :
  context_kept v1 v2 -> context_kept v2 v3 -> context_kept v1 v3.
Proof. unfold context_kept. intros [H1|H1] [H2|H2]; rewrite ?H2, ?H1; auto. Qed.

Lemma current_class_imports names (g : string -> string) v :
  current_class (fold_left (fun v x => add_import (filename v, g x) v) names v)
  = current_class v.
Proof.
  revert v. induction names as [|x names IH]; intros v; simpl; [reflexivity |].
  rewrite IH. reflexivity.
Qed.

Lemma current_class_visit_Call call v :
  current_class (visit_Call call v) = current_class v.
Proof.
  unfold visit_Call.
  destruct (get_func_name call) as [func_name|]; [| reflexivity].
  destruct (truthy func_name); [| reflexivity].
  destruct (find_callee_file (func_to_file v) func_name) as [callee_file|];
    [destruct (truthy callee_file && bool_decide (callee_file ≠ filename v)) |];
    destruct (is_output func_name); reflexivity.
Qed.

Lemma context_kept_visit_all l :
  Forall (fun n => forall v, context_kept v (visit n v)) l ->
  forall v, context_kept v (visit_all l v).
Proof.
  induction 1 as [|x l Hx _ IH]; intros v.
  - by left.
  - rewrite plain_visit_all_cons.
    eapply context_kept_trans; [apply Hx | apply IH].
Qed.

Lemma context_kept_visit n : forall v, context_kept v (visit n v).
Proof.
  induction n as [n IH] using node_children_ind. intros v.
  rewrite plain_visit_unfold.
  pose proof (context_kept_visit_all _ IH (enter n v)) as Hall.
  destruct n; simpl in *; try exact Hall.
  - eapply context_kept_trans; [| exact Hall].
    left. apply current_class_visit_Call.
  - eapply context_kept_trans; [| exact Hall].
    left. unfold visit_FunctionDef.
    destruct (current_class v) eqn:E; simpl; exact E.
  - by right.
  - left. apply (current_class_imports names (fun x => x)).
  - left. apply (current_class_imports names (imported_module module)).
Qed.

Lemma context_none_visit n v :
  current_class v = None -> current_class (visit n v) = None.
Proof. intros H. destruct (context_kept_visit n v) as [E|E]; congruence. Qed.

Lemma context_none_visit_all l v :
  current_class v = None -> current_class (visit_all l v) = None.
Proof.
  intros H.
  destruct (context_kept_visit_all l
              (proj2 (Forall_forall _ _) (fun n _ => context_kept_visit n)) v)
    as [E|E]; congruence.
Qed.

(** Leaving a class resets the context, whatever it was on entry. *)
Lemma context_reset_after_class name bases body decos v :
  current_class (visit (ClassDef name bases body decos) v) = None.
Proof. rewrite plain_visit_unfold. reflexivity. Qed.

Lemma function_added_outside_class f args body decos v :
  current_class v = None ->
  f ∈ functions (visit (FunctionDef f args body decos) v).
Proof.
  intros H. rewrite plain_visit_unfold.
  apply (pe_functions _ _ (plain_extends_leave _ _)).
  apply (pe_functions _ _ (plain_extends_all _ _)).
  simpl. unfold visit_FunctionDef. rewrite H. simpl. set_solver.
Qed.

(** C10. When the subtree of a class nested in another class is left, the
    class context is [None], whatever it was before; so every function
    definition that follows the nested class in the body of the outer
    class is added to the functions of the file. *)
Theorem C10_nested_class_resets_context
    (tree : node) (outer inner f : string)
    (bases pre post decos ibases ibody idecos fargs fbody fdecos : list node)
    (v : visitor) :
  subnode
    (ClassDef outer bases (pre ++ ClassDef inner ibases ibody idecos :: post) decos)
    tree ->
  In (FunctionDef f fargs fbody fdecos) post ->
  (forall v0, current_class (visit (ClassDef inner ibases ibody idecos) v0) = None) /\
  (forall v0, current_class
     (visit_all (pre ++ [ClassDef inner ibases ibody idecos])
        (enter_ClassDef outer v0)) = None) /\
  f ∈ functions (visit tree v).
Proof.
  intros Hsub Hin.
  split; [intros v0; apply context_reset_after_class |].
  split.
  { intros v0. rewrite plain_visit_all_app, plain_visit_all_cons.
    apply context_reset_after_class. }
  destruct (plain_visit_subnode _ _ Hsub v) as (v1 & _ & Hext).
  apply (pe_functions _ _ Hext). clear Hext Hsub.
  apply in_split in Hin as (p1 & p2 & ->).
  rewrite plain_visit_unfold.
  apply (pe_functions _ _ (plain_extends_leave _ _)).
  simpl iter_child_nodes.
  rewrite !plain_visit_all_app, plain_visit_all_cons, plain_visit_all_app,
    plain_visit_all_cons.
  apply (pe_functions _ _ (plain_extends_all _ _)).
  apply (pe_functions _ _ (plain_extends_all _ _)).
  apply function_added_outside_class, context_none_visit_all,
    context_reset_after_class.
Qed.

Lemma C10_witness :
  In (FunctionDef "after" [] [Other []] []) [FunctionDef "after" [] [Other []] []] /\
  "after" ∈ functions (visit ex_nested_py (new_visitor ex_abspath "./nested.py" ∅)).
Proof.
  assert (Hin : In (FunctionDef "after" [] [Other []] [])
                  [FunctionDef "after" [] [Other []] []]) by (simpl; tauto).
  split; [exact Hin |].
  apply (C10_nested_class_resets_context ex_nested_py "Outer" "Inner" "after"
           [] [] [FunctionDef "after" [] [Other []] []] [] [] [Other []] []
           [] [Other []] []).
  - eapply subnode_child; [| apply subnode_here]. simpl. tauto.
  - exact Hin.
Defined.

End ClassContext.

(** ** Two passes *)

Lemma dict_get_In {V : Type} k (v : V) d :
  dict_get k d = Some v -> In (k, v) d.
Proof.
  induction d as [|[k0 v0] d IH]; simpl; [done |].
  case_bool_decide as Hd.
  - intros [= ->]. left. by subst.
  - intros Hg. right. by apply IH.
Qed.

(** C6. The table that every visitor of a run holds is the one
    [build_function_to_file_map] returned for the whole list of files,
    and no visit of a node, hence no call resolution, changes the table a
    visitor holds. *)
Theorem C6_table_built_before_analysis_and_frozen
    (abspath : string -> string) (source : string -> result node)
    (py_files : list string) (visitors : list (string * Plain.visitor)) :
  Plain.analyze_project abspath source py_files = Ok visitors ->
  exists table,
    build_function_to_file_map abspath source py_files = Ok table /\
    (forall path visitor, In (path, visitor) visitors ->
       Plain.func_to_file visitor = table) /\
    (forall n v, Plain.func_to_file (Plain.visit n v) = Plain.func_to_file v) /\
    (forall call v,
       Plain.func_to_file (Plain.visit_Call call v) = Plain.func_to_file v).
Proof.
  intros Hrun.
  destruct (plain_analyze_inv abspath source _ _ Hrun) as (table & Hb & Hok & _).
  exists table. split; [exact Hb |]. split; [| split].
  - intros path visitor Hin. rewrite Forall_forall in Hok.
    apply list_elem_of_In in Hin. destruct (Hok _ Hin) as (_ & Ht & _). exact Ht.
  - intros n v. apply (pe_table _ _ (plain_extends_visit n v)).
  - intros call v. apply (pe_table _ _ (plain_extends_visit_Call call v)).
Qed.

Lemma C6_witness :
  exists visitors table,
    Plain.analyze_project ex_abspath ex_source ["./helper.py"; "./util.py"]
      = Ok visitors /\
    build_function_to_file_map ex_abspath ex_source ["./helper.py"; "./util.py"]
      = Ok table /\
    forall path visitor, In (path, visitor) visitors ->
      Plain.func_to_file visitor = table.
Proof.
  assert (Hrun : exists visitors,
            Plain.analyze_project ex_abspath ex_source ["./helper.py"; "./util.py"]
            = Ok visitors) by (eexists; vm_compute; reflexivity).
  destruct Hrun as [visitors Hrun].
  destruct (C6_table_built_before_analysis_and_frozen _ _ _ _ Hrun)
    as (table & Hb & Hall & _).
  exists visitors, table. auto.
Defined.

(** ** A method call on a constructor call *)

(** C2, as the code has it.  In [Worker().run()] the method call resolves
    to the name [run], the receiver being left out; but the receiver
    [Worker()] is itself a call, by the bare name [Worker].  When [file_a]
    defines class [Worker] and no file processed later files that name,
    then on every run that returns its visitors a file [file_b] that
    contains the call has recorded the call to [file_a], and every graph
    drawn from these visitors has the call edge from [file_b] to
    [file_a]. *)
Theorem C2_receiver_constructor_call_gives_edge
    (abspath : string -> string) (source : string -> result node)
    (find_spec : string -> find_spec_outcome)
    (pre post : list string) (file_a file_b : string) (tree_a tree_b : node)
    (bases body decos cargs margs : list node)
    (visitors : list (string * Plain.visitor)) :
  Plain.analyze_project abspath source (pre ++ file_a :: post) = Ok visitors ->
  NoDup (map abspath (pre ++ file_a :: post)) ->
  source file_a = Ok tree_a ->
  subnode (ClassDef "Worker" bases body decos) tree_a ->
  (forall f t, In f post -> source f = Ok t -> "Worker" ∉ written_names t) ->
  In file_b (pre ++ file_a :: post) ->
  source file_b = Ok tree_b ->
  abspath file_b <> abspath file_a ->
  truthy (abspath file_a) = true ->
  subnode (Call (Attribute (Call (Name "Worker") cargs) "run") margs) tree_b ->
  get_func_name (Call (Attribute (Call (Name "Worker") cargs) "run") margs)
    = Some "run" /\
  (exists visitor_b,
     dict_get (abspath file_b) visitors = Some visitor_b /\
     (abspath file_b, abspath file_a) ∈ Plain.function_calls visitor_b) /\
  In (Edge (abspath file_b) (abspath file_a) "calls" "black")
     (Plain.call_edges visitors) /\
  (forall g, Plain.create_execution_diagram abspath find_spec visitors = Ok g ->
     In (Edge (abspath file_b) (abspath file_a) "calls" "black") (graph_edges g)).
Proof.
  intros Hrun Hnd Hsrc_a Hclass Hlast Hin_b Hsrc_b Hne Htruthy Hcall.
  split; [reflexivity |].
  destruct (plain_analyze_inv abspath source _ _ Hrun)
    as (table & Hb & Hok & Hkeys_nd & Hkeys).
  assert (Hworker : table !! "Worker" = Some (abspath file_a)).
  { apply (build_loop_last_writer abspath source pre file_a post tree_a
             "Worker" ∅ table Hb Hsrc_a); [| exact Hlast].
    apply list_elem_of_In, in_flat_map. eexists. split.
    - apply ast_walk_complete, Hclass.
    - simpl. by left. }
  assert (Hget : dict_get (abspath file_b) visitors =
                 Some (Plain.visit tree_b (Plain.new_visitor abspath file_b table))).
  { unfold Plain.analyze_project in Hrun. rewrite Hb in Hrun. simpl in Hrun.
    apply (plain_parse_loop_get abspath source _ _ _ _ _ _ Hrun Hnd Hin_b Hsrc_b). }
  set (vb := Plain.visit tree_b (Plain.new_visitor abspath file_b table)) in *.
  assert (Hedge : (abspath file_b, abspath file_a) ∈ Plain.function_calls vb).
  { assert (Hinner : subnode (Call (Name "Worker") cargs) tree_b).
    { eapply subnode_trans; [| exact Hcall].
      eapply subnode_child; [simpl; left; reflexivity |].
      eapply subnode_child; [simpl; left; reflexivity |].
      apply subnode_here. }
    destruct (plain_visit_subnode _ _ Hinner (Plain.new_visitor abspath file_b table))
      as (v1 & H1 & H2).
    apply (pe_calls _ _ H2).
    rewrite plain_visit_unfold.
    apply (pe_calls _ _ (plain_extends_leave _ _)).
    apply (pe_calls _ _ (plain_extends_all _ _)).
    simpl. unfold Plain.visit_Call, find_callee_file. simpl.
    rewrite (pe_table _ _ H1), (pe_filename _ _ H1). simpl.
    rewrite Hworker, Htruthy, bool_decide_true by congruence. simpl.
    destruct (is_output "Worker"); simpl;
      apply elem_of_union_l, elem_of_singleton; reflexivity. }
  assert (Hdrawn : In (Edge (abspath file_b) (abspath file_a) "calls" "black")
                      (Plain.call_edges visitors)).
  { unfold Plain.call_edges. apply in_flat_map. exists vb. split.
    - unfold dict_values. apply (in_map snd _ (abspath file_b, vb)).
      by apply dict_get_In.
    - apply in_flat_map. exists (abspath file_b, abspath file_a). split.
      + apply list_elem_of_In, elem_of_elements, Hedge.
      + unfold Plain.call_edge. simpl. rewrite Htruthy.
        assert (Hmem : dict_mem (abspath file_a) visitors = true).
        { apply dict_mem_true. apply (proj2 (Hkeys (abspath file_a))).
          apply list_elem_of_In, in_map, in_or_app. right. by left. }
        rewrite Hmem. simpl. by left. }
  split; [exists vb; split; [exact Hget | exact Hedge] |].
  split; [exact Hdrawn |].
  intros g Hg. unfold Plain.create_execution_diagram in Hg.
  destruct (Plain.import_edges abspath find_spec visitors) as [ies|ex];
    simpl in Hg; [| done].
  injection Hg as <-. simpl. apply in_or_app. by right.
Qed.

Lemma C2_witness :
  exists visitors,
    Plain.analyze_project ex_abspath ex_source ["./worker.py"; "./use_worker.py"]
      = Ok visitors /\
    In (Edge "/proj/use_worker.py" "/proj/worker.py" "calls" "black")
       (Plain.call_edges visitors).
Proof.
  assert (Hrun : exists visitors,
            Plain.analyze_project ex_abspath ex_source
              ["./worker.py"; "./use_worker.py"] = Ok visitors)
    by (eexists; vm_compute; reflexivity).
  destruct Hrun as [visitors Hrun]. exists visitors. split; [exact Hrun |].
  destruct (C2_receiver_constructor_call_gives_edge ex_abspath ex_source
              ex_find_spec
              [] ["./use_worker.py"] "./worker.py" "./use_worker.py"
              ex_worker_py ex_use_worker_py
              [] [FunctionDef "run" [] [Other []] []] [] [] [] visitors Hrun)
    as (_ & _ & Hedge & _).
  - apply (bool_decide_unpack _). vm_compute. exact I.
  - reflexivity.
  - eapply subnode_child; [| apply subnode_here]. simpl. tauto.
  - intros f t [<-|[]] [= <-]. apply (bool_decide_unpack _). vm_compute. exact I.
  - simpl. tauto.
  - reflexivity.
  - discriminate.
  - reflexivity.
  - eapply subnode_child; [simpl; left; reflexivity |].
    eapply subnode_child; [simpl; left; reflexivity |].
    apply subnode_here.
  - exact Hedge.
Defined.

(** C2, as the claim has it, fails on the two files of the scenario: the
    run produces the call edge from the file with the call to the file of
    the class. *)
Lemma C2_counterexample :
  exists visitors,
    Plain.analyze_project ex_abspath ex_source ["./worker.py"; "./use_worker.py"]
      = Ok visitors /\
    Plain.call_edges visitors =
      [Edge "/proj/use_worker.py" "/proj/worker.py" "calls" "black"].
Proof. eexists. split; vm_compute; reflexivity. Qed.

(** ** The traversal of the sequenced variant *)

Section SequencedVisit.

Import Sequenced.

Lemma seq_visit_all_app l1 l2 st :
  visit_all (l1 ++ l2) st = visit_all l2 (visit_all l1 st).
Proof. apply fold_left_app. Qed.

Lemma seq_visit_all_cons x l st :
  visit_all (x :: l) st = visit_all l (visit x st).
Proof. reflexivity. Qed.

Lemma seq_visit_unfold n st :
  visit n st = leave n (visit_all (iter_child_nodes n) (enter n st)).
Proof.
  assert (G : forall l st,
    (fix generic_visit (l : list node) (st : nat * visitor) : nat * visitor :=
       match l with
       | [] => st
       | x :: r => generic_visit r (visit x st)
       end) l st = visit_all l st).
  { induction l as [|x r IH]; intros st0; simpl; [reflexivity | apply IH]. }
  destruct n; simpl; rewrite ?seq_visit_all_app, <- ?G; try reflexivity.
  all: destruct st; reflexivity.
Qed.

Lemma seq_extends_same st st' :
  st'.1 = st.1 -> filename st'.2 = filename st.2 ->
  func_to_file st'.2 = func_to_file st.2 ->
  calls_with_sequence st'.2 = calls_with_sequence st.2 ->
  seq_extends st st'.
Proof.
  intros Hc Hf Ht Hl. split; [exact Hf | exact Ht |].
  exists []. split; [by rewrite app_nil_r |]. split; [reflexivity |].
  split; [simpl; lia | constructor].
Qed.

Lemma seq_extends_refl st : seq_extends st st.
Proof. by apply seq_extends_same. Qed.

Lemma seq_extends_trans st1 st2 st3 :
  seq_extends st1 st2 -> seq_extends st2 st3 -> seq_extends st1 st3.
Proof.
  intros [F1 T1 (n1 & L1 & S1 & C1 & A1)] [F2 T2 (n2 & L2 & S2 & C2 & A2)].
  split; [congruence | congruence |].
  exists (n1 ++ n2). split; [| split; [| split]].
  - rewrite L2, L1. by rewrite app_assoc.
  - rewrite map_app, length_app, seq_app, S1, S2, C1. reflexivity.
  - rewrite length_app. lia.
  - apply Forall_app. split; [exact A1 |].
    rewrite F1, T1 in A2. exact A2.
Qed.

Lemma seq_imports_same names (g : string -> string) v :
  let v' := fold_left (fun v x => add_import (filename v, g x) v) names v in
  filename v' = filename v /\ func_to_file v' = func_to_file v /\
  calls_with_sequence v' = calls_with_sequence v /\
  current_class v' = current_class v.
Proof.
  revert v. induction names as [|x names IH]; intros v; simpl; [auto |].
  destruct (IH (add_import (filename v, g x) v)) as (H1 & H2 & H3 & H4).
  simpl in *. auto.
Qed.

Lemma seq_extends_visit_Call call st : seq_extends st (visit_Call call st).
Proof.
  unfold visit_Call.
  destruct (get_func_name call) as [func_name|]; [| apply seq_extends_refl].
  destruct (truthy func_name); [| apply seq_extends_refl].
  assert (H1 : seq_extends st
    match find_callee_file (func_to_file st.2) func_name with
    | Some callee_file =>
        if truthy callee_file && bool_decide (callee_file ≠ filename st.2)
        then (S st.1, append_call (S st.1, filename st.2, callee_file) st.2)
        else st
    | None => st
    end).
  { unfold find_callee_file.
    destruct (func_to_file st.2 !! func_name) as [callee_file|] eqn:Hk;
      [| apply seq_extends_refl].
    destruct (truthy callee_file) eqn:Ht; simpl; [| apply seq_extends_refl].
    case_bool_decide as Hne; [| apply seq_extends_refl].
    split; simpl; auto.
    exists [(S st.1, filename st.2, callee_file)]. simpl.
    repeat split; [lia |]. constructor; [| constructor]. simpl. eauto. }
  destruct (is_output func_name); [| exact H1].
  eapply seq_extends_trans; [exact H1 |].
  by apply seq_extends_same.
Qed.

Lemma seq_extends_enter n st : seq_extends st (enter n st).
Proof.
  destruct n; simpl; try apply seq_extends_refl.
  - apply seq_extends_visit_Call.
  - apply seq_extends_same; simpl; try done;
      unfold visit_FunctionDef; destruct (current_class st.2); done.
  - by apply seq_extends_same.
  - destruct (seq_imports_same names (fun x => x) st.2) as (H1 & H2 & H3 & _).
    by apply seq_extends_same.
  - destruct (seq_imports_same names (imported_module module) st.2)
      as (H1 & H2 & H3 & _).
    by apply seq_extends_same.
Qed.

Lemma seq_extends_leave n st : seq_extends st (leave n st).
Proof. destruct n; simpl; try apply seq_extends_refl. by apply seq_extends_same. Qed.

Lemma seq_extends_visit_all l :
  Forall (fun n => forall st, seq_extends st (visit n st)) l ->
  forall st, seq_extends st (visit_all l st).
Proof.
  induction 1 as [|x l Hx _ IH]; intros st.
  - apply seq_extends_refl.
  - rewrite seq_visit_all_cons.
    eapply seq_extends_trans; [apply Hx | apply IH].
Qed.

Lemma seq_extends_visit n : forall st, seq_extends st (visit n st).
Proof.
  induction n as [n IH] using node_children_ind. intros st.
  rewrite seq_visit_unfold.
  eapply seq_extends_trans; [apply seq_extends_enter |].
  eapply seq_extends_trans; [| apply seq_extends_leave].
  apply seq_extends_visit_all, IH.
Qed.

End SequencedVisit.

(** ** Numbering under replacement of a visitor *)



(** ** Runs of the sequenced variant *)

Section SequencedRun.

Import Sequenced.

Context (abspath : string -> string) (source : string -> result node).

Lemma seq_parse_file_ok f table c st :
  parse_file abspath source f table c = Ok st ->
  seq_entry_ok table (abspath f, st.2) /\
  map seq_num (calls_with_sequence st.2) =
    seq (S c) (length (calls_with_sequence st.2)) /\
  st.1 = c + length (calls_with_sequence st.2).
Proof.
  unfold parse_file. destruct (source f) as [tree|e]; simpl; [| done].
  intros [= <-].
  pose proof (seq_extends_visit tree (c, new_visitor abspath f table))
    as [F T (new & L & S & C & A)].
  simpl in *. rewrite L. repeat split; auto.
  simpl. rewrite L. exact A.
Qed.

Lemma seq_parse_loop_inv l table : forall c vs c' vs',
  parse_loop abspath source l table c vs = Ok (c', vs') ->
  Forall (seq_entry_ok table) vs ->
  Forall (seq_entry_ok table) vs' /\
  (forall k, k ∈ map fst vs' <-> k ∈ map fst vs \/ k ∈ map abspath l).
Proof.
  induction l as [|f l IH]; intros c vs c' vs' Hrun Hok; simpl in Hrun.
  - inversion Hrun; subst. split; [done |]. intros k. split; [by left |].
    intros [H|H]; [done | by apply elem_of_nil in H].
  - destruct (parse_file abspath source f table c) as [st|e] eqn:Hst;
      simpl in Hrun; [| done].
    apply IH in Hrun as (Hok' & Hkeys).
    + split; [done |]. intros k. rewrite Hkeys, dict_set_keys. simpl.
      rewrite elem_of_cons. tauto.
    + apply Forall_forall. intros [k' v'] Hin.
      apply list_elem_of_In, dict_set_In in Hin as [[= -> ->]|Hin].
      * by apply (seq_parse_file_ok _ _ _ _ Hst).
      * rewrite Forall_forall in Hok. apply Hok, list_elem_of_In, Hin.
Qed.


Lemma seq_analyze_inv c l c' vs :
  analyze_project abspath source c l = Ok (c', vs) ->
  exists table,
    build_function_to_file_map abspath source l = Ok table /\
    Forall (seq_entry_ok table) vs /\
    (forall k, k ∈ map fst vs <-> k ∈ map abspath l).
Proof.
  unfold analyze_project.
  destruct (build_function_to_file_map abspath source l) as [table|e]; simpl;
    [| done].
  intros Hrun. exists table. split; [done |].
  apply seq_parse_loop_inv in Hrun as (H1 & H2); [| constructor].
  split; [done |]. intros k. rewrite H2. split; [| by right].
  intros [H|H]; [by apply elem_of_nil in H | done].
Qed.



End SequencedRun.

(** ** Sorting by sequence number *)

Lemma insert_call_In x l c :
  In c (Sequenced.insert_call x l) <-> c = x \/ In c l.
Proof.
  induction l as [|y r IH]; simpl; [intuition congruence |].
  destruct (x.1.1 <=? y.1.1); simpl; [intuition congruence |].
  rewrite IH. intuition congruence.
Qed.

Lemma sort_calls_In l c : In c (Sequenced.sort_calls l) <-> In c l.
Proof.
  induction l as [|x l IH]; simpl; [tauto |].
  rewrite insert_call_In, IH. intuition congruence.
Qed.







(** ** Call edges handed to the renderer *)





Lemma seq_call_edges_all (visitors : list (string * Sequenced.visitor))
    (l : list (nat * string * string)) :
  (forall c, In c l -> truthy c.2 = true /\ dict_mem c.2 visitors = true) ->
  flat_map (Sequenced.call_edge visitors) l = map Sequenced.edge_of_call l.
Proof.
  induction l as [|c l IH]; intros Hall; simpl; [reflexivity |].
  unfold Sequenced.call_edge at 1.
  destruct (Hall c) as [-> ->]; [now left |]. simpl.
  rewrite IH; [reflexivity |]. intros c' Hc'. apply Hall. now right.
Qed.

Lemma seq_recorded_call_ok abspath source c l c' vs x :
  Sequenced.analyze_project abspath source c l = Ok (c', vs) ->
  In x (Sequenced.all_calls_with_sequence vs) ->
  x.1.2 <> x.2 /\ truthy x.2 = true /\ dict_mem x.2 vs = true.
Proof.
  intros Hrun Hx.
  destruct (seq_analyze_inv abspath source _ _ _ _ Hrun) as (table & Hb & Hok & Hkeys).
  unfold Sequenced.all_calls_with_sequence, dict_values in Hx.
  apply in_flat_map in Hx as (v & Hv & Hx).
  apply in_map_iff in Hv as ([k v'] & <- & Hkv).
  rewrite Forall_forall in Hok. apply list_elem_of_In in Hkv.
  destruct (Hok _ Hkv) as (_ & _ & Hcalls). simpl in *.
  rewrite Forall_forall in Hcalls. apply list_elem_of_In in Hx.
  destruct (Hcalls _ Hx) as (H1 & H2 & H3 & name & Hname).
  split; [congruence |]. split; [exact H3 |].
  apply dict_mem_true. apply (proj2 (Hkeys x.2)).
  destruct (build_loop_range abspath source l name x.2 ∅ table Hb Hname)
    as [Hm|(f & Hf & ->)]; [by rewrite lookup_empty in Hm |].
  apply list_elem_of_In, in_map, Hf.
Qed.

(** Every recorded call gets its edge: on a run the guard of the loop
    over the sorted calls never drops one. *)
Lemma seq_call_edges_sorted abspath source c l c' vs :
  Sequenced.analyze_project abspath source c l = Ok (c', vs) ->
  Sequenced.call_edges vs
    = map Sequenced.edge_of_call
        (Sequenced.sort_calls (Sequenced.all_calls_with_sequence vs)).
Proof.
  intros Hrun. unfold Sequenced.call_edges.
  apply seq_call_edges_all. intros x Hx.
  apply (proj1 (sort_calls_In _ _)) in Hx.
  by destruct (seq_recorded_call_ok abspath source _ _ _ _ _ Hrun Hx) as (_ & ? & ?).
Qed.


(** ** Sequence numbers *)



(** ** Edges per pair of files *)


(** ** The visitors of a sequenced run *)

Lemma seq_parse_loop_entries abspath source l table : forall c ws st,
  Sequenced.parse_loop abspath source l table c ws = Ok st ->
  forall k w, In (k, w) st.2 ->
    In (k, w) ws \/
    exists f tree c0, In f l /\ source f = Ok tree /\ k = abspath f /\
      w = (Sequenced.visit tree (c0, Sequenced.new_visitor abspath f table)).2.
Proof.
  induction l as [|f l IH]; intros c ws st Hrun k w Hin; simpl in Hrun.
  - inversion Hrun; subst. by left.
  - unfold Sequenced.parse_file in Hrun.
    destruct (source f) as [tree|e] eqn:Hf; simpl in Hrun; [| done].
    destruct (IH _ _ _ Hrun k w Hin) as [H|(g & t & c0 & Hg & Ht & Hk & Hw)].
    + apply dict_set_In in H as [[= -> ->]|H]; [| by left].
      right. exists f, tree, c. split; [now left | auto].
    + right. exists g, t, c0. split; [now right | auto].
Qed.

(** Every visitor of a sequenced run is the visit of the tree of one
    listed file, started from an empty record with the table of the whole
    listing. *)
Lemma seq_analyze_entries abspath source c l st :
  Sequenced.analyze_project abspath source c l = Ok st ->
  exists table,
    build_function_to_file_map abspath source l = Ok table /\
    forall k w, In (k, w) st.2 ->
      exists f tree c0, In f l /\ source f = Ok tree /\ k = abspath f /\
        w = (Sequenced.visit tree (c0, Sequenced.new_visitor abspath f table)).2.
Proof.
  unfold Sequenced.analyze_project.
  destruct (build_function_to_file_map abspath source l) as [table|e]; simpl;
    [| done].
  intros Hrun. exists table. split; [reflexivity |]. intros k w Hin.
  destruct (seq_parse_loop_entries _ _ _ _ _ _ _ Hrun k w Hin) as [[]|H]. exact H.
Qed.

(** ** The calls a sequenced visit records *)





Section SequencedCalls.

Import Sequenced.





End SequencedCalls.

(** ** Counting the edges of a pair of files *)














(** ** No call from a file to itself *)

(** C7. A call is recorded only when the file found for the name is not
    the file being visited; so in every visitor of a run, and on every
    call edge given to the renderer, the caller and the callee differ.
    Both variants. *)
Theorem C7_no_call_edge_is_a_self_loop
    (abspath : string -> string) (source : string -> result node)
    (py_files : list string) (visitors : list (string * Plain.visitor))
    (counter counter' : nat) (visitors' : list (string * Sequenced.visitor)) :
  Plain.analyze_project abspath source py_files = Ok visitors ->
  Sequenced.analyze_project abspath source counter py_files
    = Ok (counter', visitors') ->
  (forall call v c,
     c ∈ Plain.function_calls (Plain.visit_Call call v) ->
     c ∈ Plain.function_calls v \/ c.1 <> c.2) /\
  (forall path v c, In (path, v) visitors ->
     c ∈ Plain.function_calls v -> c.1 <> c.2) /\
  (forall e, In e (Plain.call_edges visitors) -> edge_tail e <> edge_head e) /\
  (forall path v c, In (path, v) visitors' ->
     In c (Sequenced.calls_with_sequence v) -> c.1.2 <> c.2) /\
  (forall e, In e (Sequenced.call_edges visitors') -> edge_tail e <> edge_head e).
Proof.
  intros Hplain Hseq.
  destruct (plain_analyze_inv abspath source _ _ Hplain) as (table & _ & Hok & _).
  rewrite Forall_forall in Hok.
  assert (Hp : forall path v c, In (path, v) visitors ->
                 c ∈ Plain.function_calls v -> c.1 <> c.2).
  { intros path v c Hin Hc. apply list_elem_of_In in Hin.
    destruct (Hok _ Hin) as (_ & _ & Hcalls).
    destruct (Hcalls c Hc) as (H1 & H2 & _). simpl in *. congruence. }
  assert (Hs : forall c, In c (Sequenced.all_calls_with_sequence visitors') ->
                 c.1.2 <> c.2).
  { intros c Hc.
    by destruct (seq_recorded_call_ok abspath source _ _ _ _ _ Hseq Hc). }
  split; [| split; [exact Hp |]; split; [| split]].
  - intros call v c Hc.
    destruct (pe_new _ _ (plain_extends_visit_Call call v) c Hc)
      as [H|(H1 & H2 & _)]; [by left | right; congruence].
  - intros e He. unfold Plain.call_edges, dict_values in He.
    apply in_flat_map in He as (v & Hv & He).
    apply in_map_iff in Hv as ([path v'] & <- & Hin).
    apply in_flat_map in He as (c & Hc & He).
    apply list_elem_of_In, elem_of_elements in Hc.
    unfold Plain.call_edge in He.
    destruct (truthy c.2 && dict_mem c.2 visitors); [| destruct He].
    destruct He as [<-|[]]. simpl. by apply (Hp path v').
  - intros path v c Hin Hc. apply Hs.
    unfold Sequenced.all_calls_with_sequence, dict_values.
    apply in_flat_map. exists v. split; [| exact Hc].
    by apply (in_map snd _ (path, v)).
  - intros e He. unfold Sequenced.call_edges in He.
    apply in_flat_map in He as (c & Hc & He).
    apply (proj1 (sort_calls_In _ _)) in Hc.
    unfold Sequenced.call_edge in He.
    destruct (truthy c.2 && dict_mem c.2 visitors'); [| destruct He].
    destruct He as [<-|[]]. unfold Sequenced.edge_of_call. simpl.
    apply Hs, Hc.
Qed.

Lemma C7_witness :
  exists visitors visitors',
    Plain.analyze_project ex_abspath ex_source ["./helper.py"; "./twice.py"]
      = Ok visitors /\
    Sequenced.analyze_project ex_abspath ex_source 0 ["./helper.py"; "./twice.py"]
      = Ok (2, visitors') /\
    (forall e, In e (Plain.call_edges visitors) -> edge_tail e <> edge_head e) /\
    (forall e, In e (Sequenced.call_edges visitors') -> edge_tail e <> edge_head e).
Proof.
  assert (Hp : exists visitors,
            Plain.analyze_project ex_abspath ex_source ["./helper.py"; "./twice.py"]
            = Ok visitors) by (eexists; vm_compute; reflexivity).
  assert (Hs : exists visitors',
            Sequenced.analyze_project ex_abspath ex_source 0
              ["./helper.py"; "./twice.py"] = Ok (2, visitors'))
    by (eexists; vm_compute; reflexivity).
  destruct Hp as [visitors Hp]. destruct Hs as [visitors' Hs].
  destruct (C7_no_call_edge_is_a_self_loop _ _ _ _ _ _ _ Hp Hs)
    as (_ & _ & H1 & _ & H2).
  exists visitors, visitors'. auto.
Defined.

(** * Further properties of the traversal *)

(** ** What each node adds *)

Section PlainRecord.

Import Plain.

Lemma plain_grows_refl v : plain_grows v v.
Proof. split; auto. Qed.

Lemma plain_grows_trans v1 v2 v3 :
  plain_grows v1 v2 -> plain_grows v2 v3 -> plain_grows v1 v3.
Proof. intros [A1 B1 C1] [A2 B2 C2]. split; set_solver. Qed.

Lemma plain_grows_imports names (g : string -> string) v :
  plain_grows v (fold_left (fun v x => add_import (filename v, g x) v) names v).
Proof.
  revert v. induction names as [|x names IH]; intros v; simpl.
  - apply plain_grows_refl.
  - eapply plain_grows_trans; [| apply IH]. split; simpl; auto. set_solver.
Qed.

Lemma plain_grows_visit_Call call v : plain_grows v (visit_Call call v).
Proof.
  unfold visit_Call.
  destruct (get_func_name call) as [func_name|]; [| apply plain_grows_refl].
  destruct (truthy func_name); [| apply plain_grows_refl].
  destruct (find_callee_file (func_to_file v) func_name) as [callee_file|];
    [destruct (truthy callee_file && bool_decide (callee_file ≠ filename v)) |];
    destruct (is_output func_name); split; simpl; auto; set_solver.
Qed.

Lemma plain_grows_enter n v : plain_grows v (enter n v).
Proof.
  destruct n; simpl; try apply plain_grows_refl.
  - apply plain_grows_visit_Call.
  - unfold visit_FunctionDef. destruct (current_class v); split; simpl; auto.
  - split; simpl; auto. set_solver.
  - apply (plain_grows_imports names (fun x => x)).
  - apply (plain_grows_imports names (imported_module module)).
Qed.

Lemma plain_grows_leave n v : plain_grows v (leave n v).
Proof. destruct n; simpl; try apply plain_grows_refl. split; simpl; auto. Qed.

Lemma plain_grows_visit_all l :
  Forall (fun n => forall v, plain_grows v (visit n v)) l ->
  forall v, plain_grows v (visit_all l v).
Proof.
  induction 1 as [|x l Hx _ IH]; intros v.
  - apply plain_grows_refl.
  - rewrite plain_visit_all_cons.
    eapply plain_grows_trans; [apply Hx | apply IH].
Qed.

Lemma plain_grows_visit n : forall v, plain_grows v (visit n v).
Proof.
  induction n as [n IH] using node_children_ind. intros v.
  rewrite plain_visit_unfold.
  eapply plain_grows_trans; [apply plain_grows_enter |].
  eapply plain_grows_trans; [| apply plain_grows_leave].
  apply plain_grows_visit_all, IH.
Qed.

Lemma plain_grows_all l v : plain_grows v (visit_all l v).
Proof.
  apply plain_grows_visit_all, Forall_forall.
  intros n _. apply plain_grows_visit.
Qed.

(** The state in which a node below the root is entered, and what is
    kept from its visit. *)
Lemma plain_visit_subnode_grows x n :
  subnode x n ->
  forall v, exists v1,
    plain_extends v v1 /\ plain_extends (visit x v1) (visit n v) /\
    plain_grows (visit x v1) (visit n v).
Proof.
  induction 1 as [|n c Hc _ IH]; intros v.
  - exists v. repeat split; try apply plain_extends_refl. all: auto.
  - apply in_split in Hc as (l1 & l2 & Hl).
    destruct (IH (visit_all l1 (enter n v))) as (v1 & H1 & H2 & H3).
    exists v1. split; [| split].
    + eapply plain_extends_trans; [apply plain_extends_enter |].
      eapply plain_extends_trans; [apply plain_extends_all | exact H1].
    + rewrite (plain_visit_unfold n), Hl, plain_visit_all_app, plain_visit_all_cons.
      eapply plain_extends_trans; [exact H2 |].
      eapply plain_extends_trans; [apply plain_extends_all |].
      apply plain_extends_leave.
    + rewrite (plain_visit_unfold n), Hl, plain_visit_all_app, plain_visit_all_cons.
      eapply plain_grows_trans; [exact H3 |].
      eapply plain_grows_trans; [apply plain_grows_all |].
      apply plain_grows_leave.
Qed.

End PlainRecord.

Section PlainProvenance.

Import Plain.

Lemma visit_Call_function_calls call v :
  function_calls (visit_Call call v) =
  match call_target (func_to_file v) (filename v) call with
  | Some callee_file => {[(filename v, callee_file)]} ∪ function_calls v
  | None => function_calls v
  end.
Proof.
  unfold visit_Call, call_target.
  destruct (get_func_name call) as [func_name|]; [| reflexivity].
  destruct (truthy func_name); [| reflexivity].
  destruct (find_callee_file (func_to_file v) func_name) as [callee_file|];
    [destruct (truthy callee_file && bool_decide (callee_file ≠ filename v)) |];
    destruct (is_output func_name); reflexivity.
Qed.

Lemma visit_Call_outputs call v :
  outputs (visit_Call call v) =
  match call_output call with
  | Some o => {[o]} ∪ outputs v
  | None => outputs v
  end.
Proof.
  unfold visit_Call, call_output.
  destruct (get_func_name call) as [func_name|]; [| reflexivity].
  destruct (truthy func_name); [| reflexivity]. simpl.
  destruct (find_callee_file (func_to_file v) func_name) as [callee_file|];
    [destruct (truthy callee_file && bool_decide (callee_file ≠ filename v)) |];
    destruct (is_output func_name); reflexivity.
Qed.

Lemma visit_Call_other_fields call v :
  classes (visit_Call call v) = classes v /\
  functions (visit_Call call v) = functions v /\
  imports (visit_Call call v) = imports v /\
  current_function (visit_Call call v) = current_function v.
Proof.
  unfold visit_Call.
  destruct (get_func_name call) as [func_name|]; [| auto].
  destruct (truthy func_name); [| auto].
  destruct (find_callee_file (func_to_file v) func_name) as [callee_file|];
    [destruct (truthy callee_file && bool_decide (callee_file ≠ filename v)) |];
    destruct (is_output func_name); auto.
Qed.

(** The loop of [visit_Import] and [visit_ImportFrom]: it adds the pair
    of this file with each name, and touches nothing else. *)
Lemma import_loop_fields names (g : string -> string) v :
  let v' := fold_left (fun v x => add_import (filename v, g x) v) names v in
  (forall i, i ∈ imports v' <->
     i ∈ imports v \/ (i.1 = filename v /\ In i.2 (map g names))) /\
  function_calls v' = function_calls v /\ outputs v' = outputs v /\
  classes v' = classes v /\ functions v' = functions v /\
  current_function v' = current_function v.
Proof.
  revert v. induction names as [|x names IH]; intros v; simpl.
  - repeat split; auto. intros [H|[_ []]]. exact H.
  - destruct (IH (add_import (filename v, g x) v)) as (Hi & H1 & H2 & H3 & H4 & H5).
    simpl in *. repeat split; auto.
    + intros Hin. apply Hi in Hin as [Hin|[Hf Hin]].
      * apply elem_of_union in Hin as [->%elem_of_singleton|Hin]; [| by left].
        right. simpl. auto.
      * right. auto.
    + intros [Hin|[Hf [Hx|Hin]]]; apply Hi.
      * left. by apply elem_of_union_r.
      * left. apply elem_of_union_l, elem_of_singleton.
        destruct i. simpl in *. congruence.
      * right. auto.
Qed.

Lemma plain_from_refl self table n v : plain_from self table n v v.
Proof. split; auto. Qed.

Lemma plain_from_trans self table n v1 v2 v3 :
  plain_from self table n v1 v2 -> plain_from self table n v2 v3 ->
  plain_from self table n v1 v3.
Proof.
  intros [A1 B1 C1 D1 E1] [A2 B2 C2 D2 E2]. split.
  - intros c Hc. destruct (A2 c Hc); auto.
  - intros c Hc. destruct (B2 c Hc); auto.
  - intros c Hc. destruct (C2 c Hc); auto.
  - intros c Hc. destruct (D2 c Hc); auto.
  - intros c Hc. destruct (E2 c Hc); auto.
Qed.

Lemma plain_from_child self table n c v v' :
  In c (iter_child_nodes n) -> plain_from self table c v v' ->
  plain_from self table n v v'.
Proof.
  intros Hc [A B C D E].
  assert (Hsub : forall x, subnode x c -> subnode x n).
  { intros x Hx. eapply subnode_child; eauto. }
  split.
  - intros i Hi. destruct (A i Hi) as [|(H1 & x & Hx & H2)]; [by left |].
    right. split; [exact H1 |]. exists x. auto.
  - intros i Hi. destruct (B i Hi) as [|(x & Hx & H2)]; [by left |].
    right. exists x. auto.
  - intros i Hi. destruct (C i Hi) as [|(b & bd & d & Hx)]; [by left |].
    right. exists b, bd, d. auto.
  - intros i Hi. destruct (D i Hi) as [|(b & bd & d & Hx)]; [by left |].
    right. exists b, bd, d. auto.
  - intros i Hi. destruct (E i Hi) as [|(H1 & x & Hx & H2)]; [by left |].
    right. split; [exact H1 |]. exists x. auto.
Qed.

Lemma plain_from_enter n v :
  plain_from (filename v) (func_to_file v) n v (enter n v).
Proof.
  destruct n as [id|value attr|func args|name args body decos
                |name bases body decos|names|module names|fields];
    simpl; try apply plain_from_refl.
  - destruct (visit_Call_other_fields (Call func args) v) as (Hc & Hf & Hi & _).
    split; rewrite ?Hc, ?Hf, ?Hi; auto.
    + intros c. rewrite visit_Call_function_calls.
      destruct (call_target (func_to_file v) (filename v) (Call func args))
        as [callee_file|] eqn:Ht; [| by left].
      intros [->%elem_of_singleton|Hc']%elem_of_union; [| by left].
      right. simpl. split; [reflexivity |].
      exists (Call func args). split; [apply subnode_here | exact Ht].
    + intros o. rewrite visit_Call_outputs.
      destruct (call_output (Call func args)) as [o'|] eqn:Ho; [| by left].
      intros [->%elem_of_singleton|Hc']%elem_of_union; [| by left].
      right. exists (Call func args). split; [apply subnode_here | exact Ho].
  - unfold visit_FunctionDef. destruct (current_class v);
      [apply plain_from_refl |].
    split; simpl; auto.
    intros f [->%elem_of_singleton|Hf]%elem_of_union; [| by left].
    right. exists args, body, decos. apply subnode_here.
  - split; simpl; auto.
    intros k [->%elem_of_singleton|Hk]%elem_of_union; [| by left].
    right. exists bases, body, decos. apply subnode_here.
  - destruct (import_loop_fields names (fun x => x) v)
      as (Hi & H1 & H2 & H3 & H4 & _).
    split; unfold visit_Import; rewrite ?H1, ?H2, ?H3, ?H4; auto.
    intros i Hin. apply Hi in Hin as [Hin|[Hf Hin]]; [by left |].
    right. split; [exact Hf |].
    exists (Import names). split; [apply subnode_here |].
    simpl. by rewrite map_id in Hin.
  - destruct (import_loop_fields names (imported_module module) v)
      as (Hi & H1 & H2 & H3 & H4 & _).
    split; unfold visit_ImportFrom; rewrite ?H1, ?H2, ?H3, ?H4; auto.
    intros i Hin. apply Hi in Hin as [Hin|[Hf Hin]]; [by left |].
    right. split; [exact Hf |].
    exists (ImportFrom module names). split; [apply subnode_here | exact Hin].
Qed.

Lemma plain_from_leave self table n v : plain_from self table n v (leave n v).
Proof. destruct n; simpl; try apply plain_from_refl. split; simpl; auto. Qed.

Lemma plain_from_visit_all self table n l :
  Forall (fun c => forall v, filename v = self -> func_to_file v = table ->
                     plain_from self table n v (visit c v)) l ->
  forall v, filename v = self -> func_to_file v = table ->
    plain_from self table n v (visit_all l v).
Proof.
  induction 1 as [|x l Hx _ IH]; intros v Hf Ht.
  - apply plain_from_refl.
  - rewrite plain_visit_all_cons.
    eapply plain_from_trans; [by apply Hx |].
    pose proof (plain_extends_visit x v) as [F T _ _ _].
    apply IH; congruence.
Qed.

Lemma plain_from_visit self table n : forall v,
  filename v = self -> func_to_file v = table ->
  plain_from self table n v (visit n v).
Proof.
  induction n as [n IH] using node_children_ind. intros v Hf Ht.
  rewrite plain_visit_unfold.
  eapply plain_from_trans; [subst; apply plain_from_enter |].
  eapply plain_from_trans; [| apply plain_from_leave].
  pose proof (plain_extends_enter n v) as [F T _ _ _].
  apply plain_from_visit_all; [| congruence | congruence].
  rewrite Forall_forall in IH |- *. intros c Hc v0 Hf0 Ht0.
  apply (plain_from_child _ _ n c); [by apply list_elem_of_In |].
  by apply IH.
Qed.

End PlainProvenance.

(** ** The record of a file, node by node *)

Section PlainExact.

Import Plain.

Context (abspath : string -> string).

Lemma plain_enter_kept x n v :
  subnode x n ->
  exists v1,
    plain_extends v v1 /\ plain_extends (enter x v1) (visit n v) /\
    plain_grows (enter x v1) (visit n v).
Proof.
  intros Hsub.
  destruct (plain_visit_subnode_grows x n Hsub v) as (v1 & H1 & H2 & H3).
  exists v1. split; [exact H1 |]. rewrite plain_visit_unfold in H2, H3. split.
  - eapply plain_extends_trans; [| exact H2].
    eapply plain_extends_trans; [apply plain_extends_all | apply plain_extends_leave].
  - eapply plain_grows_trans; [| exact H3].
    eapply plain_grows_trans; [apply plain_grows_all | apply plain_grows_leave].
Qed.

Lemma call_target_is_call table self x p :
  call_target table self x = Some p -> exists func args, x = Call func args.
Proof. destruct x; try discriminate. eauto. Qed.

Lemma call_output_is_call x o :
  call_output x = Some o -> exists func args, x = Call func args.
Proof. destruct x; try discriminate. eauto. Qed.

(** A call site with a target is recorded, wherever it stands. *)
Lemma plain_call_site_recorded
    (file : string) (table : gmap string string) (tree call : node) (p : string) :
  subnode call tree ->
  call_target table (abspath file) call = Some p ->
  (abspath file, p) ∈ function_calls (visit tree (new_visitor abspath file table)).
Proof.
  intros Hsub Ht.
  destruct (plain_enter_kept call tree (new_visitor abspath file table) Hsub)
    as (v1 & H1 & H2 & _).
  apply (pe_calls _ _ H2).
  destruct (call_target_is_call _ _ _ _ Ht) as (func & args & ->). simpl.
  rewrite visit_Call_function_calls, (pe_table _ _ H1), (pe_filename _ _ H1).
  simpl. rewrite Ht. apply elem_of_union_l, elem_of_singleton. reflexivity.
Qed.

(** The calls recorded for a file are exactly the pairs made of the file
    and the target of one of its call sites, at any depth of the tree. *)
Theorem plain_function_calls_exact
    (file : string) (table : gmap string string) (tree : node)
    (c : string * string) :
  c ∈ function_calls (visit tree (new_visitor abspath file table)) <->
  c.1 = abspath file /\
  exists call, subnode call tree /\
    call_target table (abspath file) call = Some c.2.
Proof.
  split.
  - intros Hc.
    destruct (pf_calls _ _ _ _ _
                (plain_from_visit (abspath file) table tree
                   (new_visitor abspath file table) eq_refl eq_refl) c Hc)
      as [H|H]; [by apply elem_of_empty in H | exact H].
  - intros (Hself & call & Hsub & Ht).
    destruct c as [caller callee]. simpl in *. subst caller.
    by apply (plain_call_site_recorded file table tree call).
Qed.

(** The outputs recorded for a file are exactly the recognised output
    functions that one of its call sites names. *)
Theorem plain_outputs_exact
    (file : string) (table : gmap string string) (tree : node) (o : string) :
  o ∈ outputs (visit tree (new_visitor abspath file table)) <->
  o ∈ output_functions /\
  exists call, subnode call tree /\ get_func_name call = Some o.
Proof.
  split.
  - intros Ho.
    destruct (pf_outputs _ _ _ _ _
                (plain_from_visit (abspath file) table tree
                   (new_visitor abspath file table) eq_refl eq_refl) o Ho)
      as [H|(x & Hx & Hout)]; [by apply elem_of_empty in H |].
    unfold call_output in Hout.
    destruct (get_func_name x) as [name|] eqn:Hn; [| discriminate].
    destruct (truthy name && is_output name) eqn:Hb; [| discriminate].
    injection Hout as ->. apply andb_true_iff in Hb as [_ Hb].
    split; [by apply bool_decide_eq_true in Hb | eauto].
  - intros (Hin & call & Hsub & Hn).
    destruct (plain_enter_kept call tree (new_visitor abspath file table) Hsub)
      as (v1 & _ & _ & H3).
    apply (pg_outputs _ _ H3).
    assert (Hout : call_output call = Some o).
    { unfold call_output. rewrite Hn.
      assert (Ht : truthy o = true).
      { unfold output_functions in Hin.
        repeat (apply elem_of_cons in Hin as [->|Hin]; [reflexivity |]).
        by apply elem_of_nil in Hin. }
      rewrite Ht. unfold is_output. by rewrite bool_decide_true. }
    destruct (call_output_is_call _ _ Hout) as (func & args & ->). simpl.
    rewrite visit_Call_outputs, Hout. apply elem_of_union_l, elem_of_singleton.
    reflexivity.
Qed.

(** The classes recorded for a file are exactly the names of the class
    definitions of its tree, nested ones and those inside functions
    included. *)
Theorem plain_classes_exact
    (file : string) (table : gmap string string) (tree : node) (k : string) :
  k ∈ classes (visit tree (new_visitor abspath file table)) <->
  exists bases body decos, subnode (ClassDef k bases body decos) tree.
Proof.
  split.
  - intros Hk.
    destruct (pf_classes _ _ _ _ _
                (plain_from_visit (abspath file) table tree
                   (new_visitor abspath file table) eq_refl eq_refl) k Hk)
      as [H|H]; [by apply elem_of_empty in H | exact H].
  - intros (bases & body & decos & Hsub).
    destruct (plain_enter_kept _ tree (new_visitor abspath file table) Hsub)
      as (v1 & _ & _ & H3).
    apply (pg_classes _ _ H3). simpl.
    apply elem_of_union_l, elem_of_singleton. reflexivity.
Qed.

(** The imports recorded for a file are exactly the pairs of the file
    with a name that one of its import statements gives, wherever the
    statement stands: [name] for [import name], [module.name] for
    [from module import name], and [name] alone when the module part is
    missing. *)
Theorem plain_imports_exact
    (file : string) (table : gmap string string) (tree : node)
    (i : string * string) :
  i ∈ imports (visit tree (new_visitor abspath file table)) <->
  i.1 = abspath file /\
  exists x, subnode x tree /\ In i.2 (import_names x).
Proof.
  split.
  - intros Hi.
    destruct (pf_imports _ _ _ _ _
                (plain_from_visit (abspath file) table tree
                   (new_visitor abspath file table) eq_refl eq_refl) i Hi)
      as [H|H]; [by apply elem_of_empty in H | exact H].
  - intros (Hself & x & Hsub & Hin).
    destruct (plain_enter_kept x tree (new_visitor abspath file table) Hsub)
      as (v1 & H1 & _ & H3).
    apply (pg_imports _ _ H3).
    destruct x; try (by destruct Hin); simpl in *.
    + apply (proj1 (import_loop_fields names (fun x => x) v1)).
      right. rewrite (pe_filename _ _ H1), map_id. auto.
    + apply (proj1 (import_loop_fields names (imported_module module) v1)).
      right. rewrite (pe_filename _ _ H1). auto.
Qed.

(** Every name among the functions of a file is the name of a function
    definition of its tree. *)
Theorem plain_functions_sound
    (file : string) (table : gmap string string) (tree : node) (f : string) :
  f ∈ functions (visit tree (new_visitor abspath file table)) ->
  exists args body decos, subnode (FunctionDef f args body decos) tree.
Proof.
  intros Hf.
  destruct (pf_functions _ _ _ _ _
              (plain_from_visit (abspath file) table tree
                 (new_visitor abspath file table) eq_refl eq_refl) f Hf)
    as [H|H]; [by apply elem_of_empty in H | exact H].
Qed.

End PlainExact.

(** ** Which function definitions count as functions of the file *)

Section PlainFunctions.

Import Plain.

Context (abspath : string -> string).

Lemma contains_class_children n :
  contains_class n =
  match n with
  | ClassDef _ _ _ _ => true
  | _ => existsb contains_class (iter_child_nodes n)
  end.
Proof.
  assert (G : forall l,
    (fix any (l : list node) : bool :=
       match l with
       | [] => false
       | x :: r => contains_class x || any r
       end) l = existsb contains_class l).
  { induction l as [|x r IH]; simpl; [reflexivity | by rewrite IH]. }
  destruct n; simpl; rewrite ?existsb_app, <- ?G, ?orb_false_r; reflexivity.
Qed.

Lemma no_nested_class_children n :
  no_nested_class n =
  match n with
  | ClassDef _ _ _ _ => negb (existsb contains_class (iter_child_nodes n))
  | _ => forallb no_nested_class (iter_child_nodes n)
  end.
Proof.
  assert (G : forall l,
    (fix all (l : list node) : bool :=
       match l with
       | [] => true
       | x :: r => no_nested_class x && all r
       end) l = forallb no_nested_class l).
  { induction l as [|x r IH]; simpl; [reflexivity | by rewrite IH]. }
  destruct n; simpl; rewrite ?forallb_app, <- ?G, ?andb_true_r; reflexivity.
Qed.

Lemma current_class_enter n v :
  (forall name bases body decos, n <> ClassDef name bases body decos) ->
  current_class (enter n v) = current_class v.
Proof.
  intros Hn. destruct n; simpl; try reflexivity.
  - apply current_class_visit_Call.
  - unfold visit_FunctionDef. destruct (current_class v) eqn:E; simpl; by rewrite E.
  - by destruct (Hn name bases body decorator_list).
  - apply (current_class_imports names (fun x => x)).
  - apply (current_class_imports names (imported_module module)).
Qed.

Lemma functions_imports names (g : string -> string) v :
  functions (fold_left (fun v x => add_import (filename v, g x) v) names v)
  = functions v.
Proof. by destruct (import_loop_fields names g v) as (_ & _ & _ & _ & H & _). Qed.

(** A definition reached without passing a class is entered with no
    class context. *)
Lemma plain_outside_class_state x n :
  outside_class x n ->
  forall v, current_class v = None ->
  exists v1, current_class v1 = None /\
             plain_extends (visit x v1) (visit n v).
Proof.
  induction 1 as [|n c Hn Hc _ IH]; intros v Hv.
  - exists v. split; [exact Hv | apply plain_extends_refl].
  - apply in_split in Hc as (l1 & l2 & Hl).
    destruct (IH (visit_all l1 (enter n v))) as (v1 & H1 & H2).
    { apply context_none_visit_all. by rewrite current_class_enter. }
    exists v1. split; [exact H1 |].
    rewrite (plain_visit_unfold n), Hl, plain_visit_all_app, plain_visit_all_cons.
    eapply plain_extends_trans; [exact H2 |].
    eapply plain_extends_trans; [apply plain_extends_all |].
    apply plain_extends_leave.
Qed.

(** A function definition that stands under no class definition, at the
    top level of the file or nested in other functions or statements, is
    among the functions of the file. *)
Theorem plain_function_outside_class_listed
    (file : string) (table : gmap string string) (tree : node)
    (f : string) (args body decos : list node) :
  outside_class (FunctionDef f args body decos) tree ->
  f ∈ functions (visit tree (new_visitor abspath file table)).
Proof.
  intros Hout.
  destruct (plain_outside_class_state _ _ Hout (new_visitor abspath file table)
              eq_refl) as (v1 & H1 & H2).
  apply (pe_functions _ _ H2). by apply function_added_outside_class.
Qed.

(** Below a class definition that holds no other class, the class
    context stays set and no function is added. *)
Lemma plain_inside_class n : forall v k,
  current_class v = Some k -> contains_class n = false ->
  functions (visit n v) = functions v /\ current_class (visit n v) = Some k.
Proof.
  induction n as [n IH] using node_children_ind. intros v k Hv Hn.
  rewrite contains_class_children in Hn.
  assert (Hnot : forall name bases body decos, n <> ClassDef name bases body decos).
  { intros ? ? ? ? ->. discriminate. }
  assert (Hkids : existsb contains_class (iter_child_nodes n) = false)
    by (destruct n; try exact Hn; discriminate).
  assert (Hall : forall l v0,
            Forall (fun c => forall v k, current_class v = Some k ->
                      contains_class c = false ->
                      functions (visit c v) = functions v /\
                      current_class (visit c v) = Some k) l ->
            existsb contains_class l = false ->
            current_class v0 = Some k ->
            functions (visit_all l v0) = functions v0 /\
            current_class (visit_all l v0) = Some k).
  { clear. induction l as [|c l IHl]; intros v0 Hf Hex Hv0; [auto |].
    simpl in Hex. apply orb_false_iff in Hex as [Hc Hl].
    apply Forall_cons in Hf as [Hc' Hf].
    destruct (Hc' v0 k Hv0 Hc) as [E1 E2].
    rewrite plain_visit_all_cons.
    destruct (IHl (visit c v0) Hf Hl E2) as [E3 E4]. split; congruence. }
  rewrite plain_visit_unfold.
  assert (He : functions (enter n v) = functions v /\
               current_class (enter n v) = Some k).
  { split; [| by rewrite current_class_enter].
    destruct n as [id|value attr|func args|name args body decos
                  |name bases body decos|names|module names|fields];
      simpl; try reflexivity.
    - by destruct (visit_Call_other_fields (Call func args) v) as (_ & H & _).
    - unfold visit_FunctionDef. by rewrite Hv.
    - apply (functions_imports names (fun x => x)).
    - apply (functions_imports names (imported_module module)). }
  destruct He as [E1 E2].
  destruct (Hall _ (enter n v) IH Hkids E2) as [E3 E4].
  assert (Hl : forall v0, leave n v0 = v0).
  { intros v0. destruct n; try reflexivity.
    by destruct (Hnot name bases body decorator_list). }
  rewrite Hl. split; congruence.
Qed.

Lemma plain_inside_class_all l : forall v k,
  current_class v = Some k -> existsb contains_class l = false ->
  functions (visit_all l v) = functions v.
Proof.
  induction l as [|c l IH]; intros v k Hv Hfree; [reflexivity |].
  simpl in Hfree. apply orb_false_iff in Hfree as [Hc Hl].
  rewrite plain_visit_all_cons.
  destruct (plain_inside_class c v k Hv Hc) as [E1 E2].
  rewrite (IH _ k E2 Hl). exact E1.
Qed.

(** The methods of a class that holds no other class, and everything
    defined inside them, stay out of the functions of the file. *)
Theorem plain_methods_not_listed
    (class_name : string) (bases body decos : list node) (v : visitor) :
  existsb contains_class (bases ++ body ++ decos) = false ->
  functions (visit (ClassDef class_name bases body decos) v) = functions v.
Proof.
  intros Hfree. rewrite plain_visit_unfold.
  change (functions
            (visit_all (bases ++ body ++ decos) (enter_ClassDef class_name v))
          = functions (enter_ClassDef class_name v)).
  by apply (plain_inside_class_all _ _ class_name).
Qed.

Lemma plain_methods_not_listed_witness :
  existsb contains_class ([] ++ [FunctionDef "run" [] [Other []] []] ++ []) = false /\
  functions (visit ex_worker_py (new_visitor ex_abspath "./worker.py" ∅)) = ∅.
Proof.
  split; [reflexivity |].
  change (functions
            (visit (ClassDef "Worker" [] [FunctionDef "run" [] [Other []] []] [])
               (new_visitor ex_abspath "./worker.py" ∅)) = ∅).
  rewrite (plain_methods_not_listed "Worker" [] [FunctionDef "run" [] [Other []] []] []);
    reflexivity.
Defined.

End PlainFunctions.

Section PlainFunctionsFlat.

Import Plain.

Context (abspath : string -> string).

Lemma functions_enter n v f :
  f ∈ functions (enter n v) ->
  f ∈ functions v \/ exists a b d, n = FunctionDef f a b d.
Proof.
  destruct n as [id|value attr|func args|name args body decos
                |name bases body decos|names|module names|fields];
    simpl; auto.
  - destruct (visit_Call_other_fields (Call func args) v) as (_ & -> & _). auto.
  - unfold visit_FunctionDef. destruct (current_class v); [auto |]. simpl.
    intros [->%elem_of_singleton|H]%elem_of_union; [right; eauto | by left].
  - unfold visit_Import. rewrite functions_imports. auto.
  - unfold visit_ImportFrom. rewrite functions_imports. auto.
Qed.

Lemma class_or_not n :
  (exists k b bd d, n = ClassDef k b bd d) \/
  (forall k b bd d, n <> ClassDef k b bd d).
Proof. destruct n; try (right; discriminate). left. eauto. Qed.

Lemma no_nested_not_class n :
  (forall k b bd d, n <> ClassDef k b bd d) ->
  no_nested_class n = forallb no_nested_class (iter_child_nodes n).
Proof.
  intros Hn. rewrite no_nested_class_children.
  destruct n; try reflexivity. by destruct (Hn name bases body decorator_list).
Qed.

Lemma leave_not_class n v :
  (forall k b bd d, n <> ClassDef k b bd d) -> leave n v = v.
Proof.
  intros Hn. destruct n; try reflexivity.
  by destruct (Hn name bases body decorator_list).
Qed.

(** In a tree without nested classes, entered with no class context, the
    context is again empty at the end and every function added stands
    under no class. *)
Lemma plain_flat_functions n : forall v,
  current_class v = None -> no_nested_class n = true ->
  forall f, f ∈ functions (visit n v) ->
    f ∈ functions v \/ exists a b d, outside_class (FunctionDef f a b d) n.
Proof.
  induction n as [n IH] using node_children_ind. intros v Hv Hn f Hf.
  destruct (class_or_not n) as [(k & b & bd & d & ->)|Hnot].
  - left. rewrite plain_visit_unfold in Hf.
    change (f ∈ functions (visit_all (b ++ bd ++ d) (enter_ClassDef k v))) in Hf.
    rewrite (plain_inside_class_all _ _ k) in Hf; [exact Hf | reflexivity |].
    simpl in Hn. by apply negb_true_iff in Hn.
  - rewrite no_nested_not_class in Hn by exact Hnot.
    rewrite plain_visit_unfold, leave_not_class in Hf by exact Hnot.
    assert (Hall : forall l v0,
              (forall c, In c l -> In c (iter_child_nodes n)) ->
              forallb no_nested_class l = true ->
              current_class v0 = None ->
              f ∈ functions (visit_all l v0) ->
              f ∈ functions v0 \/
              exists a b d, outside_class (FunctionDef f a b d) n).
    { induction l as [|c l IHl]; intros v0 Hsub Hflat Hv0 Hin; [by left |].
      simpl in Hflat. apply andb_true_iff in Hflat as [Hc Hl].
      rewrite plain_visit_all_cons in Hin.
      destruct (IHl (visit c v0)) as [H|H]; auto.
      - intros c' Hc'. apply Hsub. by right.
      - by apply context_none_visit.
      - rewrite Forall_forall in IH.
        assert (Hcn : In c (iter_child_nodes n)) by (apply Hsub; by left).
        destruct (IH c (proj2 (list_elem_of_In _ _) Hcn) v0 Hv0 Hc f H)
          as [H'|(a & b & d & Hout)]; [by left |].
        right. exists a, b, d. by apply (outside_child _ n c). }
    destruct (Hall (iter_child_nodes n) (enter n v)) as [H|H]; auto.
    + by rewrite current_class_enter.
    + destruct (functions_enter n v f H) as [H'|(a & b & d & ->)]; [by left |].
      right. exists a, b, d. apply outside_here.
Qed.

(** In a file where no class holds another class, the functions of the
    file are exactly the function definitions that stand under no class:
    those at the top level and those nested in functions or statements,
    and no method. *)
Theorem plain_functions_exact_without_nested_classes
    (file : string) (table : gmap string string) (tree : node) (f : string) :
  no_nested_class tree = true ->
  (f ∈ functions (visit tree (new_visitor abspath file table)) <->
   exists args body decos, outside_class (FunctionDef f args body decos) tree).
Proof.
  intros Hflat. split.
  - intros Hf.
    destruct (plain_flat_functions tree (new_visitor abspath file table)
                eq_refl Hflat f Hf) as [H|H];
      [by apply elem_of_empty in H | exact H].
  - intros (args & body & decos & Hout).
    destruct (plain_outside_class_state _ _ Hout (new_visitor abspath file table)
                eq_refl) as (v1 & H1 & H2).
    apply (pe_functions _ _ H2). by apply function_added_outside_class.
Qed.

End PlainFunctionsFlat.

Lemma plain_functions_exact_witness :
  no_nested_class ex_app_py = true /\
  "app" ∈ Plain.functions
            (Plain.visit ex_app_py (Plain.new_visitor ex_abspath "./app.py" ∅)).
Proof.
  split; [reflexivity |].
  apply (plain_functions_exact_without_nested_classes ex_abspath "./app.py" ∅
           ex_app_py "app"); [reflexivity |].
  eexists _, _, _.
  eapply outside_child; [discriminate | | apply outside_here].
  simpl. right. right. left. reflexivity.
Defined.

(** * Further properties of the name-to-file table *)

(** The queue-driven walk yields nothing but nodes of the trees in the
    queue. *)
Lemma walk_queue_sound fuel : forall todo x,
  In x (walk_queue fuel todo) -> exists n, In n todo /\ subnode x n.
Proof.
  induction fuel as [|fuel IH]; intros todo x Hx; [destruct Hx |].
  destruct todo as [|m rest]; [destruct Hx |].
  simpl in Hx. destruct Hx as [<-|Hx].
  - exists m. split; [now left | apply subnode_here].
  - destruct (IH _ _ Hx) as (n & Hn & Hsub).
    apply in_app_or in Hn as [Hn|Hn].
    + exists n. split; [now right | exact Hsub].
    + exists m. split; [now left |]. by apply (subnode_child x m n).
Qed.

Lemma ast_walk_sound tree x : In x (ast_walk tree) -> subnode x tree.
Proof.
  intros Hx. destruct (walk_queue_sound _ _ _ Hx) as (n & [<-|[]] & Hsub).
  exact Hsub.
Qed.

(** The names under which [record_node] files the nodes of a tree are
    the names of its function and class definitions, at any depth, and
    [Class.method] for the function definitions that stand directly in the
    body of a class. *)
Lemma written_names_subnode (tree : node) (k : string) :
  k ∈ written_names tree <->
  (exists args body decos, subnode (FunctionDef k args body decos) tree) \/
  (exists bases body decos, subnode (ClassDef k bases body decos) tree) \/
  (exists class_name bases body decos method_name margs mbody mdecos,
     subnode (ClassDef class_name bases body decos) tree /\
     In (FunctionDef method_name margs mbody mdecos) body /\
     k = class_name +:+ "." +:+ method_name).
Proof.
  unfold written_names. rewrite list_elem_of_In, in_flat_map. split.
  - intros (x & Hx & Hk). apply ast_walk_sound in Hx.
    destruct x as [id|value attr|func args|name args body decos
                  |name bases body decos|names|module names|fields];
      simpl in Hk; try destruct Hk.
    + left. subst. eauto.
    + destruct H as [].
    + right. left. subst. eauto.
    + right. right. apply in_flat_map in H as (item & Hitem & Hm).
      destruct item; simpl in Hm; try destruct Hm; [| destruct H].
      subst. eauto 12.
  - intros [(a & b & d & Hsub)|[(b & bd & d & Hsub)|
             (c & b & bd & d & m & ma & mb & md & Hsub & Hin & ->)]].
    + eexists. split; [apply ast_walk_complete, Hsub | simpl; by left].
    + eexists. split; [apply ast_walk_complete, Hsub | simpl; by left].
    + eexists. split; [apply ast_walk_complete, Hsub |]. simpl. right.
      apply in_flat_map. eexists. split; [exact Hin | simpl; by left].
Qed.

Section TableExact.

Context (abspath : string -> string) (source : string -> result node).

Lemma build_loop_lookup_inv l k p : forall m table,
  build_loop abspath source l m = Ok table -> table !! k = Some p ->
  (m !! k = Some p /\
   forall f t, In f l -> source f = Ok t -> k ∉ written_names t) \/
  (exists pre file post tree,
     l = pre ++ file :: post /\ source file = Ok tree /\
     k ∈ written_names tree /\ p = abspath file /\
     forall f t, In f post -> source f = Ok t -> k ∉ written_names t).
Proof.
  induction l as [|f l IH]; intros m table Hb Hk; simpl in Hb.
  - inversion Hb; subst. left. split; [exact Hk | intros ? ? []].
  - destruct (source f) as [tree|e] eqn:Hf; simpl in Hb; [| done].
    destruct (IH _ _ Hb Hk) as [[Hm Hno]|(pre & file & post & t & -> & H1 & H2 & H3 & H4)].
    + rewrite record_tree_lookup in Hm. case_decide as Hd.
      * right. exists [], f, l, tree. inversion Hm. auto.
      * left. split; [exact Hm |].
        intros g t [<-|Hg] Hsrc; [| by apply (Hno g)].
        rewrite Hf in Hsrc. inversion Hsrc. by subst.
    + right. exists (f :: pre), file, post, t. auto.
Qed.

(** The table [build_function_to_file_map] returns has an entry for a
    name exactly when some listed file defines it: as a function at any
    depth of its tree, as a class at any depth, or, for [Class.method],
    as a function standing directly in the body of a class; and every
    entry leads to the absolute path of a listed file that does. *)
Theorem table_names_exact
    (py_files : list string) (table : gmap string string) (k : string) :
  build_function_to_file_map abspath source py_files = Ok table ->
  (is_Some (table !! k) <->
   exists f tree, In f py_files /\ source f = Ok tree /\
     ((exists args body decos, subnode (FunctionDef k args body decos) tree) \/
      (exists bases body decos, subnode (ClassDef k bases body decos) tree) \/
      (exists class_name bases body decos method_name margs mbody mdecos,
         subnode (ClassDef class_name bases body decos) tree /\
         In (FunctionDef method_name margs mbody mdecos) body /\
         k = class_name +:+ "." +:+ method_name))) /\
  (forall p, table !! k = Some p ->
   exists f tree, In f py_files /\ source f = Ok tree /\ p = abspath f /\
     ((exists args body decos, subnode (FunctionDef k args body decos) tree) \/
      (exists bases body decos, subnode (ClassDef k bases body decos) tree) \/
      (exists class_name bases body decos method_name margs mbody mdecos,
         subnode (ClassDef class_name bases body decos) tree /\
         In (FunctionDef method_name margs mbody mdecos) body /\
         k = class_name +:+ "." +:+ method_name))).
Proof.
  intros Hb.
  assert (Hval : forall p, table !! k = Some p ->
            exists f tree, In f py_files /\ source f = Ok tree /\ p = abspath f /\
              k ∈ written_names tree).
  { intros p Hk.
    destruct (build_loop_lookup_inv _ _ _ _ _ Hb Hk)
      as [[Hm _]|(pre & file & post & tree & -> & Hsrc & Hw & -> & _)];
      [by rewrite lookup_empty in Hm |].
    exists file, tree. split; [apply in_or_app; right; by left | auto]. }
  split; [split |].
  - intros [p Hk]. destruct (Hval p Hk) as (f & tree & Hf & Hsrc & _ & Hw).
    exists f, tree. split; [exact Hf |]. split; [exact Hsrc |].
    by apply written_names_subnode.
  - intros (f & tree & Hf & Hsrc & Hdef).
    apply written_names_subnode in Hdef.
    unfold build_function_to_file_map in Hb. clear Hval.
    revert Hb. generalize (∅ : gmap string string). revert table.
    induction py_files as [|g l IH] using rev_ind; intros table m Hb;
      [destruct Hf |].
    rewrite build_loop_app in Hb.
    destruct (build_loop abspath source l m) as [m1|e] eqn:Hl; simpl in Hb;
      [| done].
    destruct (source g) as [tg|e] eqn:Hg; simpl in Hb; [| done].
    inversion Hb; subst table. rewrite record_tree_lookup.
    case_decide as Hd; [by eexists |].
    apply in_app_or in Hf as [Hf|[->|[]]].
    + by apply (IH Hf m1 m).
    + rewrite Hsrc in Hg. inversion Hg; subst. contradiction.
  - intros p Hk. destruct (Hval p Hk) as (f & tree & Hf & Hsrc & -> & Hw).
    exists f, tree. split; [exact Hf |]. split; [exact Hsrc |].
    split; [reflexivity |]. by apply written_names_subnode.
Qed.

(** Last writer wins, exactly: the table holds [name -> path] if and only
    if [path] is the file that contributes [name] and stands last, in the
    order of processing, among the files that do. *)
Theorem table_lookup_is_last_writer
    (py_files : list string) (table : gmap string string) (k p : string) :
  build_function_to_file_map abspath source py_files = Ok table ->
  (table !! k = Some p <->
   exists pre file post tree,
     py_files = pre ++ file :: post /\ source file = Ok tree /\
     k ∈ written_names tree /\ p = abspath file /\
     forall f t, In f post -> source f = Ok t -> k ∉ written_names t).
Proof.
  intros Hb. split.
  - intros Hk.
    destruct (build_loop_lookup_inv _ _ _ _ _ Hb Hk) as [[Hm _]|H]; [| exact H].
    by rewrite lookup_empty in Hm.
  - intros (pre & file & post & tree & -> & Hsrc & Hk & -> & Hpost).
    by apply (build_loop_last_writer abspath source pre file post tree k ∅).
Qed.

Lemma record_tree_union file tree (m : gmap string string) :
  fold_left (record_node file) (ast_walk tree) m =
  fold_left (record_node file) (ast_walk tree) ∅ ∪ m.
Proof.
  apply map_eq. intros k.
  rewrite lookup_union, !record_tree_lookup. case_decide.
  - by destruct (m !! k).
  - rewrite lookup_empty. by destruct (m !! k).
Qed.

Lemma build_loop_union l : forall m,
  build_loop abspath source l m =
  (table ← build_loop abspath source l ∅; Ok (table ∪ m)).
Proof.
  induction l as [|f l IH]; intros m; simpl.
  - by rewrite (left_id_L ∅ (∪)).
  - destruct (source f) as [tree|e]; simpl; [| done].
    rewrite (IH (fold_left _ _ m)), (IH (fold_left _ _ ∅)).
    destruct (build_loop abspath source l ∅) as [t|e]; simpl; [| done].
    rewrite (record_tree_union _ _ m). by rewrite (assoc_L (∪)).
Qed.

(** Tables compose: the table of a listing cut in two is the table of
    the second part laid over the table of the first, an entry of the
    second part hiding the entry of the first under the same name. *)
Theorem table_of_concatenation
    (l1 l2 : list string) (t1 t2 : gmap string string) :
  build_function_to_file_map abspath source l1 = Ok t1 ->
  build_function_to_file_map abspath source l2 = Ok t2 ->
  build_function_to_file_map abspath source (l1 ++ l2) = Ok (t2 ∪ t1) /\
  forall k, (t2 ∪ t1) !! k =
            match t2 !! k with Some p => Some p | None => t1 !! k end.
Proof.
  unfold build_function_to_file_map. intros H1 H2. split.
  - rewrite build_loop_app, H1. simpl. rewrite build_loop_union, H2. reflexivity.
  - intros k. rewrite lookup_union. destruct (t2 !! k), (t1 !! k); reflexivity.
Qed.

End TableExact.

Lemma table_names_witness :
  exists table,
    build_function_to_file_map ex_abspath ex_source ["./worker.py"; "./helper.py"]
      = Ok table /\
    is_Some (table !! "Worker.run") /\
    ~ is_Some (table !! "Worker.helper").
Proof.
  assert (Hb : exists table,
            build_function_to_file_map ex_abspath ex_source
              ["./worker.py"; "./helper.py"] = Ok table /\
            table !! "Worker.helper" = None)
    by (eexists; split; vm_compute; reflexivity).
  destruct Hb as (table & Hb & Hnone). exists table. split; [exact Hb |].
  destruct (table_names_exact ex_abspath ex_source _ table "Worker.run" Hb)
    as [[_ Hfiled] _].
  split.
  - apply Hfiled. exists "./worker.py", ex_worker_py.
    split; [by left |]. split; [reflexivity |]. right. right.
    exists "Worker", [], [FunctionDef "run" [] [Other []] []], [],
      "run", [], [Other []], [].
    split; [| split; [by left | reflexivity]].
    eapply subnode_child; [simpl; left; reflexivity | apply subnode_here].
  - rewrite Hnone. by intros [? ?].
Defined.

Lemma table_lookup_witness :
  exists table,
    build_function_to_file_map ex_abspath ex_source ["./worker.py"; "./helper.py"]
      = Ok table /\
    table !! "helper" = Some "/proj/helper.py".
Proof.
  assert (Hb : exists table,
            build_function_to_file_map ex_abspath ex_source
              ["./worker.py"; "./helper.py"] = Ok table)
    by (eexists; vm_compute; reflexivity).
  destruct Hb as [table Hb]. exists table. split; [exact Hb |].
  apply (table_lookup_is_last_writer ex_abspath ex_source _ table "helper"
           "/proj/helper.py" Hb).
  exists ["./worker.py"], "./helper.py", [], ex_helper_py.
  split; [reflexivity |]. split; [reflexivity |].
  split; [apply (bool_decide_unpack _); vm_compute; exact I |].
  split; [reflexivity | intros ? ? []].
Defined.

Lemma table_of_concatenation_witness :
  exists t1 t2,
    build_function_to_file_map ex_abspath ex_source ["./worker.py"] = Ok t1 /\
    build_function_to_file_map ex_abspath ex_source ["./helper.py"] = Ok t2 /\
    build_function_to_file_map ex_abspath ex_source ["./worker.py"; "./helper.py"]
      = Ok (t2 ∪ t1).
Proof.
  assert (H1 : exists t1,
            build_function_to_file_map ex_abspath ex_source ["./worker.py"] = Ok t1)
    by (eexists; vm_compute; reflexivity).
  assert (H2 : exists t2,
            build_function_to_file_map ex_abspath ex_source ["./helper.py"] = Ok t2)
    by (eexists; vm_compute; reflexivity).
  destruct H1 as [t1 H1]. destruct H2 as [t2 H2].
  exists t1, t2. split; [exact H1 |]. split; [exact H2 |].
  apply (table_of_concatenation ex_abspath ex_source ["./worker.py"] ["./helper.py"]
           t1 t2 H1 H2).
Defined.

(** * The two variants side by side *)

Section Variants.

Lemma variants_agree_imports names (g : string -> string) v w :
  variants_agree v w ->
  variants_agree
    (fold_left (fun v x => Plain.add_import (Plain.filename v, g x) v) names v)
    (fold_left (fun w x => Sequenced.add_import (Sequenced.filename w, g x) w)
       names w).
Proof.
  revert v w. induction names as [|x names IH]; intros v w H; simpl; [exact H |].
  apply IH. destruct H as [F T I O C Fn CC Ca].
  split; simpl; auto. by rewrite F, I.
Qed.

Lemma variants_agree_visit_Call call v st :
  variants_agree v st.2 ->
  variants_agree (Plain.visit_Call call v) (Sequenced.visit_Call call st).2.
Proof.
  intros [F T I O C Fn CC Ca].
  unfold Plain.visit_Call, Sequenced.visit_Call.
  destruct (get_func_name call) as [func_name|]; [| by split].
  destruct (truthy func_name); [| by split].
  rewrite <- T, <- F.
  destruct (find_callee_file (Plain.func_to_file v) func_name) as [callee_file|];
    [destruct (truthy callee_file && bool_decide (callee_file ≠ Plain.filename v)) |];
    destruct (is_output func_name); split; simpl; auto; try (by rewrite O).
  all: intros c; rewrite elem_of_union, elem_of_singleton, Ca; split.
  all: try (intros [->|(n & Hn)];
            [exists (S st.1); apply in_or_app; right; by left
            |exists n; apply in_or_app; by left]).
  all: intros (n & [Hn|[[= _ H1 H2]|[]]]%in_app_or);
         [right; eauto | left; destruct c; simpl in *; congruence].
Qed.

Lemma variants_agree_enter n v st :
  variants_agree v st.2 ->
  variants_agree (Plain.enter n v) (Sequenced.enter n st).2.
Proof.
  intros H. destruct n; simpl; try exact H.
  - by apply variants_agree_visit_Call.
  - destruct H as [F T I O C Fn CC Ca].
    unfold Plain.visit_FunctionDef, Sequenced.visit_FunctionDef. rewrite <- CC.
    destruct (Plain.current_class v) eqn:E; split; simpl; rewrite ?E, ?Fn; auto.
  - destruct H as [F T I O C Fn CC Ca]. split; simpl; auto. by rewrite C.
  - by apply (variants_agree_imports names (fun x => x)).
  - by apply (variants_agree_imports names (Plain.imported_module module)).
Qed.

Lemma variants_agree_leave n v st :
  variants_agree v st.2 ->
  variants_agree (Plain.leave n v) (Sequenced.leave n st).2.
Proof.
  intros H. destruct n; simpl; try exact H.
  destruct H as [F T I O C Fn CC Ca]. split; simpl; auto.
Qed.

Lemma variants_agree_visit n : forall v st,
  variants_agree v st.2 ->
  variants_agree (Plain.visit n v) (Sequenced.visit n st).2.
Proof.
  induction n as [n IH] using node_children_ind. intros v st H.
  rewrite plain_visit_unfold, seq_visit_unfold.
  apply variants_agree_leave.
  apply (variants_agree_enter n) in H. revert H.
  generalize (Plain.enter n v) (Sequenced.enter n st). clear v st.
  induction IH as [|c l Hc _ IHl]; intros v st H; [exact H |].
  rewrite plain_visit_all_cons, seq_visit_all_cons. by apply IHl, Hc.
Qed.

(** The sequenced variant records for a file what the plain variant
    records: the same imports, outputs, classes and functions, and calls
    between the same pairs of files; it only numbers the calls and keeps
    one entry per call site. *)
Theorem variants_record_the_same
    (abspath : string -> string) (file : string) (table : gmap string string)
    (tree : node) (counter : nat) :
  let v := Plain.visit tree (Plain.new_visitor abspath file table) in
  let w := (Sequenced.visit tree
              (counter, Sequenced.new_visitor abspath file table)).2 in
  Plain.imports v = Sequenced.imports w /\
  Plain.outputs v = Sequenced.outputs w /\
  Plain.classes v = Sequenced.classes w /\
  Plain.functions v = Sequenced.functions w /\
  forall caller callee,
    (caller, callee) ∈ Plain.function_calls v <->
    exists n, In (n, caller, callee) (Sequenced.calls_with_sequence w).
Proof.
  intros v w.
  assert (H : variants_agree v w).
  { apply (variants_agree_visit tree _ (counter, _)). split; simpl; auto.
    intros c. split; [by intros ?%elem_of_empty | by intros (n & [])]. }
  destruct H as [F T I O C Fn CC Ca]. repeat split; auto.
  - intros Hc. by apply (Ca (caller, callee)).
  - intros Hc. by apply (Ca (caller, callee)).
Qed.

End Variants.

(** * Further properties of a run and of its graph *)

Section PlainGraph.

Import Plain.

Context (abspath : string -> string) (source : string -> result node)
        (find_spec : string -> find_spec_outcome).

Lemma plain_parse_loop_entries l table : forall vs vs',
  parse_loop abspath source l table vs = Ok vs' ->
  forall k v, In (k, v) vs' ->
    In (k, v) vs \/
    exists f tree, In f l /\ source f = Ok tree /\ k = abspath f /\
                   v = visit tree (new_visitor abspath f table).
Proof.
  induction l as [|f l IH]; intros vs vs' Hrun k v Hin; simpl in Hrun.
  - inversion Hrun; subst. by left.
  - unfold parse_file in Hrun.
    destruct (source f) as [tree|e] eqn:Hf; simpl in Hrun; [| done].
    destruct (IH _ _ Hrun k v Hin) as [H|(g & t & Hg & Ht & Hk & Hv)].
    + apply dict_set_In in H as [[= -> ->]|H]; [| by left].
      right. exists f, tree. split; [now left | auto].
    + right. exists g, t. split; [now right | auto].
Qed.

(** Every visitor of a run is the visit of the tree of one listed file,
    started from an empty record with the table of the whole listing. *)
Lemma plain_analyze_entries l vs :
  analyze_project abspath source l = Ok vs ->
  exists table,
    build_function_to_file_map abspath source l = Ok table /\
    forall k v, In (k, v) vs ->
      exists f tree, In f l /\ source f = Ok tree /\ k = abspath f /\
                     v = visit tree (new_visitor abspath f table).
Proof.
  unfold analyze_project.
  destruct (build_function_to_file_map abspath source l) as [table|e]; simpl;
    [| done].
  intros Hrun. exists table. split; [reflexivity |]. intros k v Hin.
  destruct (plain_parse_loop_entries _ _ _ _ Hrun k v Hin) as [[]|H]. exact H.
Qed.

Lemma plain_import_edge_inv vs imp l e :
  import_edge abspath find_spec vs imp = Ok l ->
  (In e l <->
   exists p, find_source_file abspath find_spec imp.2 = Ok (Some p) /\
             truthy p = true /\ p ∈ map fst vs /\
             e = Edge imp.1 p "imports" "blue").
Proof.
  unfold import_edge.
  destruct (find_source_file abspath find_spec imp.2) as [[p|]|ex]; simpl;
    [| intros [= <-] | done].
  - destruct (truthy p) eqn:Ht; simpl.
    + destruct (dict_mem p vs) eqn:Hm; intros [= <-].
      * apply dict_mem_true in Hm. split.
        -- intros [<-|[]]. exists p. auto.
        -- intros (p' & [= <-] & _ & _ & ->). by left.
      * split; [intros [] |]. intros (p' & [= <-] & _ & Hp & _).
        apply dict_mem_true in Hp. congruence.
    + intros [= <-]. split; [intros [] |].
      intros (p' & [= <-] & Ht' & _). congruence.
  - split; [intros [] | intros (p' & H & _); discriminate].
Qed.

Lemma plain_import_edges_of_inv vs imps : forall es e,
  import_edges_of abspath find_spec vs imps = Ok es ->
  (In e es <->
   exists imp p, In imp imps /\
     find_source_file abspath find_spec imp.2 = Ok (Some p) /\
     truthy p = true /\ p ∈ map fst vs /\ e = Edge imp.1 p "imports" "blue").
Proof.
  induction imps as [|imp imps IH]; intros es e Hes; simpl in Hes.
  - inversion Hes; subst. split; [intros [] | intros (? & ? & [] & _)].
  - destruct (import_edge abspath find_spec vs imp) as [l|ex] eqn:Hl;
      simpl in Hes; [| done].
    destruct (import_edges_of abspath find_spec vs imps) as [es'|ex] eqn:Hes';
      simpl in Hes; [| done].
    inversion Hes; subst. rewrite in_app_iff.
    rewrite (plain_import_edge_inv _ _ _ e Hl), (IH _ e eq_refl). split.
    + intros [(p & H)|(imp' & p & Hin & H)].
      * exists imp, p. split; [now left | exact H].
      * exists imp', p. split; [now right | exact H].
    + intros (imp' & p & [<-|Hin] & H); [left; eauto | right; eauto].
Qed.

Lemma plain_import_edges_loop_inv vs todo : forall es e,
  import_edges_loop abspath find_spec vs todo = Ok es ->
  (In e es <->
   exists v imp p, In v todo /\ imp ∈ imports v /\
     find_source_file abspath find_spec imp.2 = Ok (Some p) /\
     truthy p = true /\ p ∈ map fst vs /\ e = Edge imp.1 p "imports" "blue").
Proof.
  induction todo as [|v todo IH]; intros es e Hes; simpl in Hes.
  - inversion Hes; subst. split; [intros [] | intros (? & ? & ? & [] & _)].
  - destruct (import_edges_of abspath find_spec vs (elements (imports v)))
      as [l|ex] eqn:Hl; simpl in Hes; [| done].
    destruct (import_edges_loop abspath find_spec vs todo) as [es'|ex] eqn:Hes';
      simpl in Hes; [| done].
    inversion Hes; subst. rewrite in_app_iff.
    rewrite (plain_import_edges_of_inv _ _ _ e Hl), (IH _ e eq_refl). split.
    + intros [(imp & p & Hin & H)|(v' & imp & p & Hin & H)].
      * exists v, imp, p. split; [now left |].
        split; [by apply elem_of_elements, list_elem_of_In | exact H].
      * exists v', imp, p. split; [now right | exact H].
    + intros (v' & imp & p & [<-|Hin] & Himp & H).
      * left. exists imp, p.
        split; [by apply list_elem_of_In, elem_of_elements | exact H].
      * right. eauto 8.
Qed.

(** The import edges of the graph are exactly these: one for each import
    recorded for a file whose module name the resolver maps to the path of
    an analysed file, from the importing file to that file. *)
Theorem plain_import_edges_exact
    (visitors : list (string * visitor)) (es : list edge) (e : edge) :
  import_edges abspath find_spec visitors = Ok es ->
  (In e es <->
   exists path v imp p,
     In (path, v) visitors /\ imp ∈ imports v /\
     find_source_file abspath find_spec imp.2 = Ok (Some p) /\
     truthy p = true /\ p ∈ map fst visitors /\
     e = Edge imp.1 p "imports" "blue").
Proof.
  intros Hes. unfold import_edges in Hes.
  rewrite (plain_import_edges_loop_inv _ _ _ e Hes). unfold dict_values. split.
  - intros (v & imp & p & Hv & H).
    apply in_map_iff in Hv as ([k v'] & <- & Hin). exists k, v', imp, p. auto.
  - intros (k & v & imp & p & Hin & H). exists v, imp, p.
    split; [by apply (in_map snd _ (k, v)) | exact H].
Qed.

(** The call edges of the graph are exactly the recorded calls: every
    pair of a visitor's call set gets its edge. *)
Lemma plain_call_edges_exact l vs e :
  analyze_project abspath source l = Ok vs ->
  (In e (call_edges vs) <->
   exists path v c, In (path, v) vs /\ c ∈ function_calls v /\
                    e = Edge c.1 c.2 "calls" "black").
Proof.
  intros Hrun.
  destruct (plain_analyze_inv abspath source _ _ Hrun) as (table & Hb & Hok & _ & Hkeys).
  rewrite Forall_forall in Hok.
  unfold call_edges, dict_values. rewrite in_flat_map. split.
  - intros (v & Hv & He). apply in_map_iff in Hv as ([k v'] & <- & Hin).
    apply in_flat_map in He as (c & Hc & He).
    apply list_elem_of_In, elem_of_elements in Hc. unfold call_edge in He.
    destruct (truthy c.2 && dict_mem c.2 vs); [| destruct He].
    destruct He as [<-|[]]. exists k, v', c. auto.
  - intros (k & v & c & Hin & Hc & ->). exists v.
    split; [by apply (in_map snd _ (k, v)) |].
    apply in_flat_map. exists c.
    split; [by apply list_elem_of_In, elem_of_elements |].
    destruct (Hok (k, v) (proj2 (list_elem_of_In _ _) Hin)) as (_ & _ & Hcalls).
    destruct (Hcalls c Hc) as (_ & _ & Ht & name & Hname).
    unfold call_edge. rewrite Ht.
    assert (Hm : dict_mem c.2 vs = true).
    { apply dict_mem_true, (proj2 (Hkeys c.2)).
      destruct (build_loop_range abspath source l name c.2 ∅ table Hb Hname)
        as [Hm|(f & Hf & ->)]; [by rewrite lookup_empty in Hm |].
      apply list_elem_of_In, in_map, Hf. }
    rewrite Hm. simpl. by left.
Qed.

(** On the visitors of a run: the paths are distinct, they are the
    analysed paths, and every import edge and call edge joins two of
    them. *)
Lemma plain_run_edges_in_nodes l vs ies :
  analyze_project abspath source l = Ok vs ->
  import_edges abspath find_spec vs = Ok ies ->
  NoDup (map fst vs) /\
  (forall path, path ∈ map fst vs <-> path ∈ map abspath l) /\
  (forall e, In e (ies ++ call_edges vs) ->
     edge_tail e ∈ map fst vs /\ edge_head e ∈ map fst vs).
Proof.
  intros Hrun Hies.
  destruct (plain_analyze_inv abspath source _ _ Hrun) as (table & Hb & Hok & Hnd & Hkeys).
  destruct (plain_analyze_entries _ _ Hrun) as (table' & Hb' & Hent).
  rewrite Forall_forall in Hok.
  split; [exact Hnd |]. split; [exact Hkeys |].
  assert (Hkey : forall k v, In (k, v) vs -> k ∈ map fst vs).
  { intros k v Hin. apply list_elem_of_In. by apply (in_map fst _ (k, v)). }
  intros e [He|He]%in_app_or.
  - unfold import_edges in Hies.
    apply (plain_import_edges_loop_inv _ _ _ e Hies) in He
      as (v & imp & p & Hv & Himp & _ & _ & Hp & ->). simpl.
    split; [| exact Hp].
    apply in_map_iff in Hv as ([k v'] & <- & Hin). simpl in Himp.
    destruct (Hent k v' Hin) as (f & tree & _ & _ & -> & ->).
    destruct (pf_imports _ _ _ _ _
                (plain_from_visit (abspath f) table' tree
                   (new_visitor abspath f table') eq_refl eq_refl) imp Himp)
      as [H|[-> _]]; [by apply elem_of_empty in H |].
    by apply (Hkey _ _ Hin).
  - apply (plain_call_edges_exact _ _ e Hrun) in He
      as (k & v & c & Hin & Hc & ->). simpl.
    destruct (Hok (k, v) (proj2 (list_elem_of_In _ _) Hin)) as (_ & _ & Hcalls).
    destruct (Hcalls c Hc) as (-> & _ & _ & name & Hname). simpl.
    split; [by apply (Hkey _ _ Hin) |].
    apply (proj2 (Hkeys c.2)).
    destruct (build_loop_range abspath source l name c.2 ∅ table Hb Hname)
      as [Hm|(f & Hf & ->)]; [by rewrite lookup_empty in Hm |].
    apply list_elem_of_In, in_map, Hf.
Qed.

(** The graph of a run has one node for each analysed path, none twice,
    and no edge leads to or from anything but a node: there are no
    dangling references. *)
Theorem plain_graph_well_formed (py_files : list string) (g : graph) :
  main abspath source find_spec py_files = Ok g ->
  NoDup (graph_nodes g) /\
  (forall path, path ∈ graph_nodes g <-> path ∈ map abspath py_files) /\
  (forall e, In e (graph_edges g) ->
     edge_tail e ∈ graph_nodes g /\ edge_head e ∈ graph_nodes g).
Proof.
  unfold main.
  destruct (analyze_project abspath source py_files) as [vs|ex] eqn:Hrun;
    simpl; [| done].
  unfold create_execution_diagram.
  destruct (import_edges abspath find_spec vs) as [ies|ex] eqn:Hies; simpl;
    [| done].
  intros [= <-]. simpl.
  exact (plain_run_edges_in_nodes py_files vs ies Hrun Hies).
Qed.

End PlainGraph.

Lemma plain_graph_well_formed_witness :
  exists g,
    Plain.main ex_abspath ex_source ex_find_spec
      ["./helper.py"; "./util.py"; "./app.py"] = Ok g /\
    forall e, In e (graph_edges g) ->
      edge_tail e ∈ graph_nodes g /\ edge_head e ∈ graph_nodes g.
Proof.
  assert (H : exists g,
            Plain.main ex_abspath ex_source ex_find_spec
              ["./helper.py"; "./util.py"; "./app.py"] = Ok g)
    by (eexists; vm_compute; reflexivity).
  destruct H as [g Hg]. exists g. split; [exact Hg |].
  by destruct (plain_graph_well_formed ex_abspath ex_source ex_find_spec _ g Hg)
    as (_ & _ & H).
Defined.

(** A file that imports its own module gets an import edge to itself:
    only call edges are kept from looping. *)
Lemma plain_import_edges_exact_witness :
  exists visitors es,
    Plain.analyze_project ex_abspath ex_source_self ["./helper.py"] = Ok visitors /\
    Plain.import_edges ex_abspath ex_find_spec visitors = Ok es /\
    In (Edge "/proj/helper.py" "/proj/helper.py" "imports" "blue") es.
Proof.
  assert (H : exists visitors es,
            Plain.analyze_project ex_abspath ex_source_self ["./helper.py"]
              = Ok visitors /\
            Plain.import_edges ex_abspath ex_find_spec visitors = Ok es /\
            exists v, In ("/proj/helper.py", v) visitors /\
                      ("/proj/helper.py", "helper") ∈ Plain.imports v).
  { eexists _, _. split; [vm_compute; reflexivity |].
    split; [vm_compute; reflexivity |].
    eexists. split; [left; reflexivity |].
    apply (bool_decide_unpack _). vm_compute. exact I. }
  destruct H as (visitors & es & Hrun & Hes & v & Hin & Himp).
  exists visitors, es. split; [exact Hrun |]. split; [exact Hes |].
  apply (plain_import_edges_exact ex_abspath ex_find_spec visitors es _ Hes).
  exists "/proj/helper.py", v, ("/proj/helper.py", "helper"), "/proj/helper.py".
  split; [exact Hin |]. split; [exact Himp |]. split; [reflexivity |].
  split; [reflexivity |]. split; [| reflexivity].
  apply list_elem_of_In. by apply (in_map fst _ ("/proj/helper.py", v)).
Defined.

(** ** The two variants on a whole run *)

Section VariantsRun.

Context (abspath : string -> string) (source : string -> result node)
        (find_spec : string -> find_spec_outcome).

Lemma dict_set_agree k v w vs ws :
  visitors_agree vs ws -> variants_agree v w ->
  visitors_agree (dict_set k v vs) (dict_set k w ws).
Proof.
  unfold visitors_agree. intros Hvs Hvw.
  induction Hvs as [|[k1 v1] [k2 w2] vs ws [Hk Ha] Hrest IH]; simpl.
  - constructor; [by split | constructor].
  - simpl in Hk. subst k2. case_bool_decide as Hd.
    + constructor; [by split | exact Hrest].
    + constructor; [by split | exact IH].
Qed.

Lemma visitors_agree_keys vs ws :
  visitors_agree vs ws -> map fst vs = map fst ws.
Proof.
  induction 1 as [|[k1 v1] [k2 w2] vs ws [Hk _] _ IH]; simpl; [reflexivity |].
  simpl in Hk. by rewrite Hk, IH.
Qed.

(** The two loops over the files fail together, with the same exception,
    or return agreeing dictionaries. *)
Lemma parse_loops_agree l table : forall vs ws c,
  visitors_agree vs ws ->
  match Plain.parse_loop abspath source l table vs,
        Sequenced.parse_loop abspath source l table c ws with
  | Ok vs', Ok st => visitors_agree vs' st.2
  | Raise e, Raise e' => e = e'
  | _, _ => False
  end.
Proof.
  induction l as [|f l IH]; intros vs ws c H; simpl; [exact H |].
  unfold Plain.parse_file, Sequenced.parse_file.
  destruct (source f) as [tree|e]; simpl; [| reflexivity].
  apply IH, dict_set_agree; [exact H |].
  apply (variants_agree_visit tree _ (c, _)). split; simpl; auto.
  intros x. split; [by intros ?%elem_of_empty | by intros (n & [])].
Qed.

Lemma analyses_agree l c :
  match Plain.analyze_project abspath source l,
        Sequenced.analyze_project abspath source c l with
  | Ok vs, Ok st => visitors_agree vs st.2
  | Raise e, Raise e' => e = e'
  | _, _ => False
  end.
Proof.
  unfold Plain.analyze_project, Sequenced.analyze_project.
  destruct (build_function_to_file_map abspath source l) as [table|e]; simpl;
    [| reflexivity].
  apply parse_loops_agree. constructor.
Qed.

Lemma import_edges_of_agree vs ws imps :
  map fst vs = map fst ws ->
  Plain.import_edges_of abspath find_spec vs imps
  = Sequenced.import_edges_of abspath find_spec ws imps.
Proof.
  intros Hk. induction imps as [|imp imps IH]; simpl; [reflexivity |].
  rewrite IH. unfold Plain.import_edge, Sequenced.import_edge, dict_mem.
  by rewrite Hk.
Qed.

Lemma import_edges_loop_agree vs ws : forall todo todo',
  map fst vs = map fst ws ->
  Forall2 (fun v w => Plain.imports v = Sequenced.imports w) todo todo' ->
  Plain.import_edges_loop abspath find_spec vs todo
  = Sequenced.import_edges_loop abspath find_spec ws todo'.
Proof.
  intros todo todo' Hk H. induction H as [|v w todo todo' Hi _ IH]; simpl;
    [reflexivity |].
  by rewrite IH, Hi, (import_edges_of_agree vs ws).
Qed.

Lemma import_edges_agree vs ws :
  visitors_agree vs ws ->
  Plain.import_edges abspath find_spec vs
  = Sequenced.import_edges abspath find_spec ws.
Proof.
  intros H. unfold Plain.import_edges, Sequenced.import_edges, dict_values.
  apply import_edges_loop_agree; [by apply visitors_agree_keys |].
  induction H as [|[k1 v1] [k2 w2] vs ws [_ Ha] _ IH]; simpl; constructor;
    [apply (va_imports _ _ Ha) | exact IH].
Qed.

Lemma visitors_agree_In_l vs ws k v :
  visitors_agree vs ws -> In (k, v) vs ->
  exists w, In (k, w) ws /\ variants_agree v w.
Proof.
  induction 1 as [|[k1 v1] [k2 w2] vs ws [Hk Ha] _ IH]; simpl; [intros [] |].
  simpl in Hk. intros [[= -> ->]|Hin].
  - exists w2. split; [left; congruence | exact Ha].
  - destruct (IH Hin) as (w & Hw & Haw). exists w. auto.
Qed.

Lemma visitors_agree_In_r vs ws k w :
  visitors_agree vs ws -> In (k, w) ws ->
  exists v, In (k, v) vs /\ variants_agree v w.
Proof.
  induction 1 as [|[k1 v1] [k2 w2] vs ws [Hk Ha] _ IH]; simpl; [intros [] |].
  simpl in Hk. intros [[= -> ->]|Hin].
  - exists v1. split; [left; congruence | exact Ha].
  - destruct (IH Hin) as (v & Hv & Hav). exists v. auto.
Qed.

(** The call edges of the two variants join the same pairs of files. *)
Lemma call_edge_ends_agree l c c' vs ws ends :
  Plain.analyze_project abspath source l = Ok vs ->
  Sequenced.analyze_project abspath source c l = Ok (c', ws) ->
  visitors_agree vs ws ->
  (In ends (map edge_ends (Plain.call_edges vs)) <->
   In ends (map edge_ends (Sequenced.call_edges ws))).
Proof.
  intros Hp Hs H. rewrite !in_map_iff. split.
  - intros (e & <- & He).
    apply (plain_call_edges_exact abspath source _ _ e Hp) in He
      as (k & v & x & Hin & Hx & ->).
    destruct (visitors_agree_In_l _ _ _ _ H Hin) as (w & Hw & Ha).
    destruct (proj1 (va_calls _ _ Ha x) Hx) as (n & Hn).
    exists (Sequenced.edge_of_call (n, x.1, x.2)). split; [reflexivity |].
    rewrite (seq_call_edges_sorted abspath source _ _ _ _ Hs).
    apply in_map. apply (proj2 (sort_calls_In _ _)).
    unfold Sequenced.all_calls_with_sequence, dict_values.
    apply in_flat_map. exists w. split; [| exact Hn].
    by apply (in_map snd _ (k, w)).
  - intros (e & <- & He).
    rewrite (seq_call_edges_sorted abspath source _ _ _ _ Hs) in He.
    apply in_map_iff in He as ([[n a] b] & <- & Hx).
    apply (proj1 (sort_calls_In _ _)) in Hx.
    unfold Sequenced.all_calls_with_sequence, dict_values in Hx.
    apply in_flat_map in Hx as (w & Hw & Hx).
    apply in_map_iff in Hw as ([k w'] & <- & Hin).
    destruct (visitors_agree_In_r _ _ _ _ H Hin) as (v & Hv & Ha).
    exists (Edge a b "calls" "black"). split; [reflexivity |].
    apply (plain_call_edges_exact abspath source _ _ _ Hp).
    exists k, v, (a, b). split; [exact Hv |]. split; [| reflexivity].
    apply (proj2 (va_calls _ _ Ha (a, b))). by exists n.
Qed.

(** The two variants draw the same picture: on the same listing both
    raise or both give a graph; the two graphs have the same nodes in the
    same order, the same import edges, and call edges between the same
    pairs of files. *)
Theorem variants_same_graph (py_files : list string) :
  match Plain.main abspath source find_spec py_files,
        Sequenced.main abspath source find_spec py_files with
  | Ok g, Ok g' =>
      graph_nodes g = graph_nodes g' /\
      (forall e, edge_color e = "blue" ->
         (In e (graph_edges g) <-> In e (graph_edges g'))) /\
      (forall ends,
         (exists e, In e (graph_edges g) /\ edge_color e = "black" /\
                    edge_ends e = ends) <->
         (exists e', In e' (graph_edges g') /\ edge_color e' = "black" /\
                     edge_ends e' = ends))
  | Raise _, Raise _ => True
  | _, _ => False
  end.
Proof.
  unfold Plain.main, Sequenced.main.
  pose proof (analyses_agree py_files 0) as H.
  destruct (Plain.analyze_project abspath source py_files) as [vs|e] eqn:Hp;
    destruct (Sequenced.analyze_project abspath source 0 py_files)
      as [[c ws]|e'] eqn:Hs; simpl in *; try done.
  unfold Plain.create_execution_diagram, Sequenced.create_execution_diagram.
  rewrite (import_edges_agree vs ws H).
  destruct (Sequenced.import_edges abspath find_spec ws) as [ies|e] eqn:Hies;
    simpl; [| exact I].
  rewrite <- (import_edges_agree vs ws H) in Hies.
  assert (Hblue : forall e, In e ies -> edge_color e = "blue").
  { intros e He. unfold Plain.import_edges in Hies.
    apply (plain_import_edges_loop_inv abspath find_spec _ _ _ e Hies) in He
      as (? & ? & ? & _ & _ & _ & _ & _ & ->). reflexivity. }
  assert (Hblack : forall e, In e (Plain.call_edges vs) -> edge_color e = "black").
  { intros e He.
    apply (plain_call_edges_exact abspath source _ _ e Hp) in He
      as (? & ? & ? & _ & _ & ->). reflexivity. }
  assert (Hblack' : forall e, In e (Sequenced.call_edges ws) ->
                      edge_color e = "black").
  { intros e He. rewrite (seq_call_edges_sorted abspath source _ _ _ _ Hs) in He.
    apply in_map_iff in He as (x & <- & _). reflexivity. }
  split; [by apply visitors_agree_keys |]. split.
  - intros e He. rewrite !in_app_iff. split.
    + intros [Hi|Hc]; [by right |]. apply Hblack in Hc. congruence.
    + intros [Hc|Hi]; [| by left]. apply Hblack' in Hc. congruence.
  - intros ends.
    pose proof (call_edge_ends_agree py_files 0 c vs ws ends Hp Hs H) as Hends.
    rewrite !in_map_iff in Hends. split.
    + intros (e & [Hi|Hc]%in_app_or & Hcol & He).
      * apply Hblue in Hi. congruence.
      * destruct (proj1 Hends (ex_intro _ e (conj He Hc))) as (e' & He' & Hc').
        exists e'. split; [apply in_or_app; by left |]. split; [| exact He'].
        by apply Hblack'.
    + intros (e' & [Hc|Hi]%in_app_or & Hcol & He).
      * destruct (proj2 Hends (ex_intro _ e' (conj He Hc))) as (e & He' & Hc').
        exists e. split; [apply in_or_app; by right |]. split; [| exact He'].
        by apply Hblack.
      * apply Hblue in Hi. congruence.
Qed.

(** The graph of a sequenced run has one node for each analysed path,
    none twice, and no edge leads to or from anything but a node. *)
Theorem sequenced_graph_well_formed (py_files : list string) (g' : graph) :
  Sequenced.main abspath source find_spec py_files = Ok g' ->
  NoDup (graph_nodes g') /\
  (forall path, path ∈ graph_nodes g' <-> path ∈ map abspath py_files) /\
  (forall e, In e (graph_edges g') ->
     edge_tail e ∈ graph_nodes g' /\ edge_head e ∈ graph_nodes g').
Proof.
  unfold Sequenced.main.
  pose proof (analyses_agree py_files 0) as H.
  destruct (Sequenced.analyze_project abspath source 0 py_files)
    as [[c ws]|e'] eqn:Hs; simpl; [| done].
  destruct (Plain.analyze_project abspath source py_files) as [vs|e] eqn:Hp;
    [| done].
  simpl in H. unfold Sequenced.create_execution_diagram.
  rewrite <- (import_edges_agree vs ws H).
  destruct (Plain.import_edges abspath find_spec vs) as [ies|e] eqn:Hies; simpl;
    [| done].
  intros [= <-]. simpl.
  destruct (plain_run_edges_in_nodes abspath source find_spec _ _ _ Hp Hies)
    as (Hnd & Hkeys & Hedges).
  rewrite <- (visitors_agree_keys _ _ H).
  split; [exact Hnd |]. split; [exact Hkeys |].
  intros e [He|He]%in_app_or.
  - assert (Hin : In (edge_ends e) (map edge_ends (Plain.call_edges vs))).
    { apply (call_edge_ends_agree py_files 0 c vs ws _ Hp Hs H). by apply in_map. }
    apply in_map_iff in Hin as (e0 & He0 & Hin).
    destruct (Hedges e0 (in_or_app _ _ _ (or_intror Hin))) as [H1 H2].
    unfold edge_ends in He0. injection He0 as E1 E2. by rewrite <- E1, <- E2.
  - apply Hedges, in_or_app. by left.
Qed.

End VariantsRun.

(** ** Fields that are never written *)

Lemma plain_current_function_kept n : forall v,
  Plain.current_function (Plain.visit n v) = Plain.current_function v.
Proof.
  induction n as [n IH] using node_children_ind. intros v.
  rewrite plain_visit_unfold.
  assert (He : Plain.current_function (Plain.enter n v) = Plain.current_function v).
  { destruct n as [id|value attr|func args|name args body decos
                  |name bases body decos|names|module names|fields];
      simpl; try reflexivity.
    - by destruct (visit_Call_other_fields (Call func args) v) as (_ & _ & _ & H).
    - unfold Plain.visit_FunctionDef. by destruct (Plain.current_class v).
    - by destruct (import_loop_fields names (fun x => x) v)
        as (_ & _ & _ & _ & _ & H).
    - by destruct (import_loop_fields names (Plain.imported_module module) v)
        as (_ & _ & _ & _ & _ & H). }
  rewrite <- He.
  assert (Hl : forall v0, Plain.current_function (Plain.leave n v0)
                          = Plain.current_function v0)
    by (intros v0; destruct n; reflexivity).
  rewrite Hl. generalize (Plain.enter n v). clear He Hl v.
  induction IH as [|c l Hc _ IHl]; intros v; [reflexivity |].
  rewrite plain_visit_all_cons, IHl. apply Hc.
Qed.

Lemma seq_import_loop_kept names (g : string -> string) w :
  let w' := fold_left
              (fun w x => Sequenced.add_import (Sequenced.filename w, g x) w)
              names w in
  Sequenced.function_calls w' = Sequenced.function_calls w /\
  Sequenced.current_function w' = Sequenced.current_function w.
Proof.
  revert w. induction names as [|x names IH]; intros w; simpl; [auto |].
  destruct (IH (Sequenced.add_import (Sequenced.filename w, g x) w)) as [H1 H2].
  simpl in *. auto.
Qed.

Lemma seq_unused_fields_kept n : forall st,
  Sequenced.function_calls (Sequenced.visit n st).2
    = Sequenced.function_calls st.2 /\
  Sequenced.current_function (Sequenced.visit n st).2
    = Sequenced.current_function st.2.
Proof.
  induction n as [n IH] using node_children_ind. intros st.
  rewrite seq_visit_unfold.
  assert (He : Sequenced.function_calls (Sequenced.enter n st).2
                 = Sequenced.function_calls st.2 /\
               Sequenced.current_function (Sequenced.enter n st).2
                 = Sequenced.current_function st.2).
  { destruct n as [id|value attr|func args|name args body decos
                  |name bases body decos|names|module names|fields];
      simpl; auto.
    - unfold Sequenced.visit_Call.
      destruct (get_func_name (Call func args)) as [func_name|]; [| auto].
      destruct (truthy func_name); [| auto].
      destruct (find_callee_file (Sequenced.func_to_file st.2) func_name)
        as [callee_file|];
        [destruct (truthy callee_file
                   && bool_decide (callee_file ≠ Sequenced.filename st.2)) |];
        destruct (is_output func_name); auto.
    - unfold Sequenced.visit_FunctionDef.
      by destruct (Sequenced.current_class st.2).
    - apply (seq_import_loop_kept names (fun x => x)).
    - apply (seq_import_loop_kept names (Sequenced.imported_module module)). }
  destruct He as [<- <-].
  assert (Hl : forall st0,
            Sequenced.function_calls (Sequenced.leave n st0).2
              = Sequenced.function_calls st0.2 /\
            Sequenced.current_function (Sequenced.leave n st0).2
              = Sequenced.current_function st0.2)
    by (intros st0; destruct n; auto).
  destruct (Hl (Sequenced.visit_all (iter_child_nodes n) (Sequenced.enter n st)))
    as [-> ->].
  generalize (Sequenced.enter n st). clear Hl st.
  induction IH as [|c l Hc _ IHl]; intros st; [auto |].
  rewrite seq_visit_all_cons.
  destruct (IHl (Sequenced.visit c st)) as [-> ->]. apply Hc.
Qed.

(** No visit writes [current_function], in either variant, and the
    sequenced variant never writes [function_calls]: in every visitor of
    a sequenced run the call set is empty, the calls being in
    [calls_with_sequence] only, and [current_function] is [None]. *)
Theorem unused_fields_stay_empty
    (abspath : string -> string) (source : string -> result node)
    (py_files : list string) (counter counter' : nat)
    (visitors : list (string * Plain.visitor))
    (visitors' : list (string * Sequenced.visitor)) :
  Plain.analyze_project abspath source py_files = Ok visitors ->
  Sequenced.analyze_project abspath source counter py_files
    = Ok (counter', visitors') ->
  (forall path v, In (path, v) visitors -> Plain.current_function v = None) /\
  (forall path w, In (path, w) visitors' ->
     Sequenced.function_calls w = ∅ /\ Sequenced.current_function w = None).
Proof.
  intros Hp Hs. split.
  - intros path v Hin.
    destruct (plain_analyze_entries abspath source _ _ Hp) as (table & _ & Hent).
    destruct (Hent path v Hin) as (f & tree & _ & _ & _ & ->).
    by rewrite plain_current_function_kept.
  - intros path w Hin.
    destruct (seq_analyze_entries abspath source _ _ _ Hs) as (table & _ & Hent).
    destruct (Hent path w Hin) as (f & tree & c0 & _ & _ & _ & ->).
    destruct (seq_unused_fields_kept tree
                (c0, Sequenced.new_visitor abspath f table)) as [-> ->].
    by split.
Qed.

Lemma unused_fields_witness :
  exists visitors visitors',
    Plain.analyze_project ex_abspath ex_source ["./helper.py"; "./twice.py"]
      = Ok visitors /\
    Sequenced.analyze_project ex_abspath ex_source 0 ["./helper.py"; "./twice.py"]
      = Ok (2, visitors') /\
    forall path w, In (path, w) visitors' -> Sequenced.function_calls w = ∅.
Proof.
  assert (Hp : exists visitors,
            Plain.analyze_project ex_abspath ex_source ["./helper.py"; "./twice.py"]
            = Ok visitors) by (eexists; vm_compute; reflexivity).
  assert (Hs : exists visitors',
            Sequenced.analyze_project ex_abspath ex_source 0
              ["./helper.py"; "./twice.py"] = Ok (2, visitors'))
    by (eexists; vm_compute; reflexivity).
  destruct Hp as [visitors Hp]. destruct Hs as [visitors' Hs].
  destruct (unused_fields_stay_empty _ _ _ _ _ _ _ Hp Hs) as [_ H].
  exists visitors, visitors'. split; [exact Hp |]. split; [exact Hs |].
  intros path w Hin. by destruct (H path w Hin).
Defined.

(** * Further properties of call resolution *)

(** A method call on a receiver that is neither a name nor an attribute
    access, [f().a.b(...)] or [x[0].a(...)], takes its name from the
    attributes alone: the receiver is left out, and [recv.a(...)] is
    recorded exactly as the bare call [a(...)] would be. *)
Theorem opaque_receiver_is_dropped
    (e : node) (a : string) (attrs : list string) (args args' : list node)
    (v : Plain.visitor) (st : nat * Sequenced.visitor) :
  opaque_receiver e = true ->
  get_func_name (Call (fold_left Attribute (a :: attrs) e) args)
    = Some (String.concat "." (a :: attrs)) /\
  Plain.visit_Call (Call (Attribute e a) args) v
    = Plain.visit_Call (Call (Name a) args') v /\
  Sequenced.visit_Call (Call (Attribute e a) args) st
    = Sequenced.visit_Call (Call (Name a) args') st.
Proof.
  intros He.
  assert (Hparts : forall parts, attribute_parts e parts = parts)
    by (intros parts; destruct e; try reflexivity; discriminate).
  assert (H1 : get_func_name (Call (Attribute e a) args) = Some a).
  { simpl. unfold get_attribute_name. simpl. by rewrite Hparts. }
  split; [| split].
  - change (fold_left Attribute (a :: attrs) e)
      with (fold_left Attribute attrs (Attribute e a)).
    rewrite get_func_name_chain. unfold get_attribute_name.
    rewrite attribute_parts_chain. simpl. by rewrite Hparts, app_nil_r.
  - unfold Plain.visit_Call. by rewrite H1.
  - unfold Sequenced.visit_Call. by rewrite H1.
Qed.

Lemma opaque_receiver_witness :
  opaque_receiver (Call (Name "Worker") []) = true /\
  get_func_name (Call (Attribute (Call (Name "Worker") []) "run") []) = Some "run".
Proof.
  split; [reflexivity |].
  by destruct (opaque_receiver_is_dropped (Call (Name "Worker") []) "run" [] [] []
                 (Plain.new_visitor ex_abspath "./x.py" ∅)
                 (0, Sequenced.new_visitor ex_abspath "./x.py" ∅) eq_refl)
    as (H & _).
Defined.

(** A call by a name leads to the file processed last among those that
    define the name, whether or not the calling file defines the name
    itself: when it does, and a later file does too, its own definition is
    passed over.  On a run that returns its visitors, the visitor of the
    calling file has recorded the call to the later file and the graph
    gets the call edge. *)
Theorem call_leads_to_last_definer
    (abspath : string -> string) (source : string -> result node)
    (pre mid post : list string) (file_a file_b : string)
    (tree_a tree_b call : node) (name : string)
    (visitors : list (string * Plain.visitor)) :
  let py_files := pre ++ file_a :: mid ++ file_b :: post in
  Plain.analyze_project abspath source py_files = Ok visitors ->
  NoDup (map abspath py_files) ->
  source file_a = Ok tree_a -> source file_b = Ok tree_b ->
  name ∈ written_names tree_b ->
  (forall f t, In f post -> source f = Ok t -> name ∉ written_names t) ->
  subnode call tree_a -> get_func_name call = Some name ->
  truthy name = true -> truthy (abspath file_b) = true ->
  (exists visitor_a,
     dict_get (abspath file_a) visitors = Some visitor_a /\
     (abspath file_a, abspath file_b) ∈ Plain.function_calls visitor_a) /\
  In (Edge (abspath file_a) (abspath file_b) "calls" "black")
     (Plain.call_edges visitors).
Proof.
  intros py_files Hrun Hnd Ha Hb Hdef Hpost Hsub Hname Htn Htb.
  destruct (plain_analyze_inv abspath source _ _ Hrun) as (table & Hbuild & _).
  assert (Hne : abspath file_a <> abspath file_b).
  { subst py_files. rewrite map_app in Hnd. simpl in Hnd.
    apply NoDup_app in Hnd as (_ & _ & Hnd).
    apply NoDup_cons in Hnd as [Hnd _]. intros E. apply Hnd. rewrite E.
    rewrite map_app. apply elem_of_app. right. by left. }
  assert (Htable : table !! name = Some (abspath file_b)).
  { apply (build_loop_last_writer abspath source (pre ++ file_a :: mid) file_b
             post tree_b name ∅ table); try done.
    subst py_files. by rewrite <- app_assoc. }
  assert (Hin_a : In file_a py_files) by (apply in_or_app; right; by left).
  assert (Hget : dict_get (abspath file_a) visitors =
                 Some (Plain.visit tree_a (Plain.new_visitor abspath file_a table))).
  { unfold Plain.analyze_project in Hrun. rewrite Hbuild in Hrun. simpl in Hrun.
    apply (plain_parse_loop_get abspath source _ _ _ _ _ _ Hrun Hnd Hin_a Ha). }
  assert (Hcall : (abspath file_a, abspath file_b) ∈
            Plain.function_calls
              (Plain.visit tree_a (Plain.new_visitor abspath file_a table))).
  { apply (plain_call_site_recorded abspath file_a table tree_a call); [exact Hsub |].
    unfold call_target, find_callee_file.
    rewrite Hname, Htn, Htable. simpl. rewrite Htb.
    by rewrite bool_decide_true by congruence. }
  split; [eexists; split; [exact Hget | exact Hcall] |].
  apply (plain_call_edges_exact abspath source _ _ _ Hrun).
  eexists _, _, (abspath file_a, abspath file_b).
  split; [apply dict_get_In, Hget |]. split; [exact Hcall | reflexivity].
Qed.

Lemma call_leads_to_last_definer_witness :
  "helper" ∈ written_names ex_dup_a_py /\
  exists visitors,
    Plain.analyze_project ex_abspath ex_source_dup ["./dup_a.py"; "./dup_b.py"]
      = Ok visitors /\
    In (Edge "/proj/dup_a.py" "/proj/dup_b.py" "calls" "black")
       (Plain.call_edges visitors).
Proof.
  assert (Ha : "helper" ∈ written_names ex_dup_a_py)
    by (apply (bool_decide_unpack _); vm_compute; exact I).
  split; [exact Ha |].
  assert (Hrun : exists visitors,
            Plain.analyze_project ex_abspath ex_source_dup
              ["./dup_a.py"; "./dup_b.py"] = Ok visitors)
    by (eexists; vm_compute; reflexivity).
  destruct Hrun as [visitors Hrun]. exists visitors. split; [exact Hrun |].
  destruct (call_leads_to_last_definer ex_abspath ex_source_dup
              [] [] [] "./dup_a.py" "./dup_b.py" ex_dup_a_py ex_helper_py
              (Call (Name "helper") []) "helper" visitors Hrun)
    as (_ & Hedge).
  - apply (bool_decide_unpack _). vm_compute. exact I.
  - reflexivity.
  - reflexivity.
  - apply (bool_decide_unpack _). vm_compute. exact I.
  - intros ? ? [].
  - eapply subnode_child; [simpl; right; left; reflexivity |].
    eapply subnode_child; [simpl; left; reflexivity |].
    apply subnode_here.
  - reflexivity.
  - reflexivity.
  - reflexivity.
  - exact Hedge.
Defined.

(** ** The graph of the sequenced variant *)

Lemma sequenced_graph_well_formed_witness :
  exists g,
    Sequenced.main ex_abspath ex_source ex_find_spec
      ["./helper.py"; "./util.py"; "./app.py"] = Ok g /\
    forall e, In e (graph_edges g) ->
      edge_tail e ∈ graph_nodes g /\ edge_head e ∈ graph_nodes g.
Proof.
  assert (H : exists g,
            Sequenced.main ex_abspath ex_source ex_find_spec
              ["./helper.py"; "./util.py"; "./app.py"] = Ok g)
    by (eexists; vm_compute; reflexivity).
  destruct H as [g Hg]. exists g. split; [exact Hg |].
  by destruct (sequenced_graph_well_formed ex_abspath ex_source ex_find_spec _ g Hg)
    as (_ & _ & H).
Defined.

Lemma plain_function_outside_class_witness :
  outside_class (FunctionDef "inner" [] [Other []] []) ex_nested_def_py /\
  "inner" ∈ Plain.functions
    (Plain.visit ex_nested_def_py (Plain.new_visitor ex_abspath "./nested_def.py" ∅)).
Proof.
  assert (H : outside_class (FunctionDef "inner" [] [Other []] []) ex_nested_def_py).
  { eapply outside_child; [discriminate | simpl; left; reflexivity |].
    eapply outside_child; [discriminate | simpl; left; reflexivity |].
    apply outside_here. }
  split; [exact H |].
  by apply (plain_function_outside_class_listed ex_abspath "./nested_def.py" ∅
              ex_nested_def_py "inner" [] [Other []] []).
Defined.

(** * Paths *)

Lemma string_length_append (a b : string) :
  String.length (a +:+ b) = String.length a + String.length b.
Proof. induction a as [|c a IH]; simpl; [reflexivity | by rewrite IH]. Qed.

Lemma substring_whole (s : string) : substring 0 (String.length s) s = s.
Proof. induction s as [|c s IH]; simpl; [reflexivity | by rewrite IH]. Qed.

Lemma substring_skip (a b : string) n :
  substring (String.length a) n (a +:+ b) = substring 0 n b.
Proof. induction a as [|c a IH]; simpl; [reflexivity | exact IH]. Qed.

Lemma substring_split (s : string) : forall n,
  n <= String.length s ->
  s = substring 0 n s +:+ substring n (String.length s - n) s.
Proof.
  induction s as [|c s IH]; intros n Hn.
  - simpl in Hn. assert (n = 0) as -> by lia. reflexivity.
  - destruct n as [|n].
    + simpl. by rewrite substring_whole.
    + simpl in Hn. simpl.
      transitivity
        (String c (substring 0 n s +:+ substring n (String.length s - n) s));
        [f_equal; apply IH; lia | reflexivity].
Qed.

(** [endswith] holds of the strings made of something followed by the
    suffix, and of no other. *)
Lemma endswith_spec (s suffix : string) :
  endswith s suffix = true <-> exists stem, s = stem +:+ suffix.
Proof.
  unfold endswith. rewrite andb_true_iff, !bool_decide_eq_true. split.
  - intros [Hlen Hsub].
    exists (substring 0 (String.length s - String.length suffix) s).
    assert (E : substring (String.length s - String.length suffix)
                  (String.length s - (String.length s - String.length suffix)) s
                = suffix).
    { replace (String.length s - (String.length s - String.length suffix))
        with (String.length suffix) by lia. exact Hsub. }
    transitivity
      (substring 0 (String.length s - String.length suffix) s +:+
       substring (String.length s - String.length suffix)
         (String.length s - (String.length s - String.length suffix)) s);
      [apply substring_split; lia | by rewrite E].
  - intros [stem ->]. rewrite string_length_append. split; [lia |].
    replace (String.length stem + String.length suffix - String.length suffix)
      with (String.length stem) by lia.
    rewrite substring_skip. apply substring_whole.
Qed.

Lemma string_append_assoc (a b c : string) : (a +:+ b) +:+ c = a +:+ (b +:+ c).
Proof.
  induction a as [|x a IH]; [reflexivity |].
  change (String x ((a +:+ b) +:+ c) = String x (a +:+ (b +:+ c))).
  by rewrite IH.
Qed.

Lemma path_join_keeps_suffix (a b suffix : string) :
  endswith b suffix = true -> endswith (path_join a b) suffix = true.
Proof.
  intros [stem ->]%endswith_spec. unfold path_join.
  destruct (starts_with_slash (stem +:+ suffix)); [by apply endswith_spec; eauto |].
  destruct (negb (truthy a) || endswith a "/"); apply endswith_spec.
  - exists (a +:+ stem). by rewrite string_append_assoc.
  - exists (a +:+ "/" +:+ stem). by rewrite !string_append_assoc.
Qed.

(** The listing that is analysed holds exactly the files of the walk
    whose name ends in [.py], each joined to its directory, and so every
    path of the listing ends in [.py]. *)
Theorem collect_py_files_only_py (walk : list (string * list string)) (p : string) :
  In p (collect_py_files walk) <->
  (exists stem, p = stem +:+ ".py") /\
  exists root files name,
    In (root, files) walk /\ In (name +:+ ".py") files /\
    p = path_join root (name +:+ ".py").
Proof.
  unfold collect_py_files. rewrite in_flat_map. split.
  - intros ([root files] & Hw & Hp). simpl in Hp.
    apply in_map_iff in Hp as (file & <- & Hf).
    apply filter_In in Hf as [Hf Hpy].
    split; [by apply endswith_spec, path_join_keeps_suffix |].
    apply endswith_spec in Hpy as [name ->]. eauto 6.
  - intros (_ & root & files & name & Hw & Hf & ->).
    exists (root, files). split; [exact Hw |]. simpl.
    apply in_map, filter_In. split; [exact Hf |]. apply endswith_spec. eauto.
Qed.

(** ** Module resolution *)

(** [find_source_file] gives a path exactly for a spec whose origin ends
    in [.py], and then the absolute form of that origin; it gives [None]
    exactly for a module that is not found, by [None] or by
    [ModuleNotFoundError], or whose origin is missing or is no [.py] file
    (built-in, compiled); an exception other than [ModuleNotFoundError]
    is passed on. *)
Theorem find_source_file_exact
    (abspath : string -> string) (find_spec : string -> find_spec_outcome)
    (module_name : string) :
  (forall p,
     find_source_file abspath find_spec module_name = Ok (Some p) <->
     exists stem, find_spec module_name = SpecFound (Some (stem +:+ ".py")) /\
                  p = abspath (stem +:+ ".py")) /\
  (find_source_file abspath find_spec module_name = Ok None <->
     find_spec module_name = SpecNone \/
     find_spec module_name = SpecModuleNotFoundError \/
     find_spec module_name = SpecFound None \/
     exists origin, find_spec module_name = SpecFound (Some origin) /\
                    endswith origin ".py" = false) /\
  (forall e,
     find_source_file abspath find_spec module_name = Raise e <->
     find_spec module_name = SpecRaises e).
Proof.
  unfold find_source_file.
  destruct (find_spec module_name) as [[origin|]| | |ex].
  - destruct (endswith origin ".py") eqn:He.
    + apply endswith_spec in He as [stem ->].
      assert (Ht : truthy (stem +:+ ".py") = true) by (by destruct stem).
      assert (He : endswith (stem +:+ ".py") ".py" = true)
        by (apply endswith_spec; eauto).
      rewrite Ht. simpl. split; [| split].
      * intros p. split; [intros [= <-]; eauto |].
        by intros (stem' & [= ->] & ->).
      * split; [discriminate |].
        intros [H|[H|[H|(o & [= <-] & H)]]]; try discriminate. congruence.
      * intros e. split; discriminate.
    + rewrite andb_false_r. split; [| split].
      * intros p. split; [discriminate |].
        intros (stem & [= ->] & _).
        assert (endswith (stem +:+ ".py") ".py" = true)
          by (apply endswith_spec; eauto).
        congruence.
      * split; [intros _; right; right; right; eauto | done].
      * intros e. split; discriminate.
  - split; [| split].
    + intros p. split; [discriminate | by intros (? & ? & _)].
    + split; [intros _; right; right; by left | done].
    + intros e. split; discriminate.
  - split; [| split].
    + intros p. split; [discriminate | by intros (? & ? & _)].
    + split; [intros _; by left | done].
    + intros e. split; discriminate.
  - split; [| split].
    + intros p. split; [discriminate | by intros (? & ? & _)].
    + split; [intros _; right; by left | done].
    + intros e. split; discriminate.
  - split; [| split].
    + intros p. split; [discriminate | by intros (? & ? & _)].
    + split; [discriminate |].
      intros [H|[H|[H|(o & H & _)]]]; discriminate.
    + intros e. split; congruence.
Qed.
